(** * JS code-smell detector: the two AST-based checks of [smells.js]

    A shallow embedding of the "Nested Callbacks (Callback Hell)" check
    (function [detectNestedClosures]) and of the "Duplicate Code" check
    (functions [analyzeSimilarity], [levenshteinDistance], the block
    extraction callback and the pair comparison loop), followed by the
    properties of the specification that concern them. *)

From Stdlib Require Import List String Ascii NArith ZArith QArith Lia DecimalString.
From Stdlib Require DecimalFacts DecimalNat Sorted.
From stdpp Require Import base decidable option list gmap.
Import ListNotations.

Local Open Scope nat_scope.

(** ** JavaScript strings *)

(** A JavaScript string is a sequence of UTF-16 code units; [length],
    indexing, [===], [split] and [trim] all work on code units. *)
Abbreviation jsstring := (list N).

(** Literals of the development are ASCII; [js] reads them as code units. *)
Definition js (s : string) : jsstring :=
  map N_of_ascii (list_ascii_of_string s).

(** ** Syntax trees *)

(** A syntax-tree node as the checks see it.  [type] is the node's tag (the
    empty string when the object has none: both are falsy and differ from
    every tag the code compares with).  [loc] is [loc.start.line] when the
    node has a location.  [arguments] and [body] are the properties of those
    names; [others] holds the remaining enumerable properties in the order
    [for ... in] visits them.  A property holding [null] is left out of
    [others]: the code treats it as it treats an absent one ([node[key] &&],
    [?.]).  The parser stores argument lists and statement lists as arrays of
    nodes and never stores [null] as a body, which the types reflect. *)
#[local] Unset Elimination Schemes.
Inductive node : Type :=
| Node (type : string) (loc : option nat) (arguments : option (list node))
       (body : option value) (others : list (string * value))
with value : Type :=
| Atom                         (* number, boolean, undefined *)
| Str (s : jsstring)           (* string *)
| Child (n : node)             (* object *)
| Children (ns : list node).   (* array *)
#[local] Set Elimination Schemes.

Definition node_type (n : node) : string :=
  match n with Node t _ _ _ _ => t end.
Definition node_loc (n : node) : option nat :=
  match n with Node _ l _ _ _ => l end.
Definition node_arguments (n : node) : option (list node) :=
  match n with Node _ _ a _ _ => a end.
Definition node_body (n : node) : option value :=
  match n with Node _ _ _ b _ => b end.
Definition node_others (n : node) : list (string * value) :=
  match n with Node _ _ _ _ o => o end.

(** [node.loc ? node.loc.start.line : 0] *)
Definition line_of (loc : option nat) : nat :=
  match loc with Some l => l | None => 0 end.

Definition LF : N := 10%N.

(** [lines.join(sep)] *)
Fixpoint join (sep : jsstring) (lines : list jsstring) : jsstring :=
  match lines with
  | [] => []
  | [l] => l
  | l :: rest => l ++ sep ++ join sep rest
  end.

(** ** The parser and the console *)

(** How a call ends: with a value, or with a thrown error carrying
    [err.message]. *)
Inductive completion (A : Type) : Type :=
| Normal (a : A)
| Throw (message : jsstring).
Arguments Normal {A} a.
Arguments Throw {A} message.

(** What [babelParser.parse] returns: a File node, of which the checks read
    [program]. *)
Record file : Type := File { program : node }.

(** A run of a check: how it ends and what it wrote with [console.error]. *)
Record run (A : Type) : Type := Run { ends : completion A; console : list jsstring }.
Arguments Run {A} ends console.
Arguments ends {A} r.
Arguments console {A} r.

(** [console.error("Error parsing file:", err.message)] prints its two
    arguments separated by a space. *)
Definition parse_error_line (message : jsstring) : jsstring :=
  js "Error parsing file:" ++ js " " ++ message.

(** ** Check 3: Nested Callbacks *)

Module Nesting.

(** An entry of [issues]: the line, and the depth printed in the
    description ("Current depth: ..."). *)
Record issue : Type := Issue { line : nat; depth : nat }.

(** The two objects [detectNestedClosures] mutates: the [issues] array of
    the enclosing check and the [reportedLines] set threaded through the
    recursion. *)
Record state : Type := State { issues : list issue; reportedLines : gset nat }.

Definition initial : state := State [] ∅.

(** [type] is FunctionDeclaration, FunctionExpression or
    ArrowFunctionExpression (lines 116-120). *)
Definition is_function (type : string) : bool :=
  (type =? "FunctionDeclaration")%string
  || (type =? "FunctionExpression")%string
  || (type =? "ArrowFunctionExpression")%string.

(** The test on a call argument (lines 138-141). *)
Definition is_function_argument (type : string) : bool :=
  (type =? "FunctionExpression")%string
  || (type =? "ArrowFunctionExpression")%string.

(** The depth after the increment of line 121. *)
Definition enter (type : string) (depth : nat) : nat :=
  if is_function type then S depth else depth.

(** Lines 124-134: report the line unless it was already reported. *)
Definition report (maxAllowedDepth : nat) (l : nat) (depth : nat) (st : state)
  : state :=
  if maxAllowedDepth <? depth then
    if bool_decide (l ∈ reportedLines st) then st
    else State (issues st ++ [Issue l depth]) ({[ l ]} ∪ reportedLines st)
  else st.

(** The filter of the [for ... in] loop (lines 156-162). *)
Definition generic_key (key : string) : bool :=
  negb (key =? "body")%string && negb (key =? "arguments")%string.

Definition has_type (n : node) : bool :=
  negb (node_type n =? "")%string.

Section Detect.
Variable maxAllowedDepth : nat.

(** [detectNestedClosures(node, depth, reportedLines)], lines 110-166. *)
Fixpoint detectNestedClosures (n : node) (depth : nat) (st : state)
  {struct n} : state :=
  match n with
  | Node type loc arguments body others =>
    let depth := enter type depth in
    let st := report maxAllowedDepth (line_of loc) depth st in
    let st :=
      if (type =? "CallExpression")%string then
        match arguments with
        | Some args =>
          foldl (fun st arg =>
                   if is_function_argument (node_type arg)
                   then detectNestedClosures arg depth st else st)
                st args
        | None => st
        end
      else st in
    let st :=
      match body with
      | Some (Children childNodes) =>
        foldl (fun st childNode => detectNestedClosures childNode depth st)
              st childNodes
      | Some (Child b) => detectNestedClosures b depth st
      | _ => st
      end in
    foldl (fun st kv =>
             let '(key, v) := kv in
             if generic_key key then
               match v with
               | Child c =>
                 if has_type c then detectNestedClosures c depth st else st
               | _ => st
               end
             else st)
          st others
  end.

(** The top-level call [detectNestedClosures(ast.program)] followed by
    [return issues] (lines 168-169). *)
Definition analyze (program : node) : list issue :=
  issues (detectNestedClosures program 0 initial).
End Detect.

(** [maxAllowedDepth] of the check (line 89). *)
Definition maxAllowedDepth : nat := 3.

(** The [check] function of the smell (lines 86-170); [parse] is
    [babelParser.parse] with the options of lines 94-104. *)
Definition check (parse : jsstring -> completion file) (lines : list jsstring)
  : run (list issue) :=
  let content := join [LF] lines in
  match parse content with
  | Throw message => Run (Normal []) [parse_error_line message]
  | Normal ast => Run (Normal (analyze maxAllowedDepth (program ast))) []
  end.

End Nesting.

(** ** Check 5: Duplicate Code *)

Module Duplicate.

Definition MIN_DUPLICATE_LENGTH : nat := 5.
Definition SIMILARITY_THRESHOLD : Q := 8 # 10.

(** *** Numbers *)

(** The result of a division of two integers: a rational, or one of the
    values a division by zero yields.  The quotients of the check have a
    numerator and a denominator bounded by a string length, far below the
    size at which the rounding of a double could change the outcome of the
    comparison with the threshold, so they are kept exact. *)
Inductive number : Type :=
| Num (q : Q)
| PosInfinity
| NegInfinity
| NaN.

(** [a / b] on integers. *)
Definition divide (a b : Z) : number :=
  if (b =? 0)%Z then
    if (a =? 0)%Z then NaN
    else if (0 <? a)%Z then PosInfinity else NegInfinity
  else Num (inject_Z a / inject_Z b).

(** [x >= t] *)
Definition at_least (x : number) (t : Q) : bool :=
  match x with
  | Num q => Qle_bool t q
  | PosInfinity => true
  | NegInfinity | NaN => false
  end.

(** *** Strings *)

(** [str.split(sep)] for a separator of one code unit. *)
Fixpoint split (sep : N) (str : jsstring) : list jsstring :=
  match str with
  | [] => [[]]
  | c :: rest =>
    if (c =? sep)%N then [] :: split sep rest
    else match split sep rest with
         | l :: ls => (c :: l) :: ls
         | [] => [[c]]
         end
  end.

(** White space and line terminators of ECMAScript, which [trim] strips. *)
Definition is_white_space (c : N) : bool :=
  existsb (N.eqb c)
    [9; 10; 11; 12; 13; 32; 160; 5760; 8192; 8193; 8194; 8195; 8196; 8197;
     8198; 8199; 8200; 8201; 8202; 8232; 8233; 8239; 8287; 12288; 65279]%N.

Fixpoint trim_start (s : jsstring) : jsstring :=
  match s with
  | c :: rest => if is_white_space c then trim_start rest else s
  | [] => []
  end.

(** [str.trim()] *)
Definition trim (s : jsstring) : jsstring :=
  rev (trim_start (rev (trim_start s))).

(** [a === b] on strings. *)
Definition str_eqb (a b : jsstring) : bool := bool_decide (a = b).

(** *** levenshteinDistance *)

(** The matrix of [levenshteinDistance]: rows of cells, a cell being [null]
    until it is assigned. *)
Abbreviation matrix := (list (list (option nat))).

(** [Array(rows).fill(null).map(() => Array(cols).fill(null))] *)
Definition new_matrix (rows cols : nat) : matrix :=
  replicate rows (replicate cols None).

(** [matrix[j][i] = v].  Every assignment of the function is inside the
    bounds of the matrix. *)
Definition set_cell (m : matrix) (j i v : nat) : matrix :=
  alter (fun row => <[ i := Some v ]> row) j m.

(** [matrix[j][i]] read as an operand of [+]: [null] counts as 0.  Every
    read of the function is inside the bounds of the matrix. *)
Definition cell (m : matrix) (j i : nat) : nat :=
  match m !! j with
  | Some row => match row !! i with Some (Some v) => v | _ => 0 end
  | None => 0
  end.

(** [str1[i - 1] === str2[j - 1] ? 0 : 1] *)
Definition indicator (str1 str2 : jsstring) (i j : nat) : nat :=
  if bool_decide (str1 !! (i - 1) = str2 !! (j - 1)) then 0 else 1.

(** Lines 299-316. *)
Definition levenshteinDistance (str1 str2 : jsstring) : nat :=
  let matrix := new_matrix (length str2 + 1) (length str1 + 1) in
  let matrix :=
    foldl (fun matrix i => set_cell matrix 0 i i) matrix
          (seq 0 (length str1 + 1)) in
  let matrix :=
    foldl (fun matrix j => set_cell matrix j 0 j) matrix
          (seq 0 (length str2 + 1)) in
  let matrix :=
    foldl (fun matrix j =>
      foldl (fun matrix i =>
        set_cell matrix j i
          (Nat.min (Nat.min (cell matrix j (i - 1) + 1)
                            (cell matrix (j - 1) i + 1))
                   (cell matrix (j - 1) (i - 1) + indicator str1 str2 i j)))
        matrix (seq 1 (length str1)))
      matrix (seq 1 (length str2)) in
  cell matrix (length str2) (length str1).

(** *** analyzeSimilarity *)

(** An element of a match.  The loop pushes [[i + 1, j + 1, text]]; the
    shortcut for identical strings puts the two strings themselves where
    such triples are expected. *)
Inductive entry : Type :=
| Triple (i j : nat) (text : jsstring)
| Whole (s : jsstring).

Record analysis : Type :=
  Analysis { similarity : number; matches : list (list entry) }.

(** The body of the inner loop (lines 279-287) on the pair of lines
    [(i, j)]; the state is [(matches, currentMatch)]. *)
Definition compare_lines (i : nat) (line1 : jsstring)
    (st : list (list entry) * list entry) (j : nat) (line2 : jsstring)
  : list (list entry) * list entry :=
  let '(matches, currentMatch) := st in
  if str_eqb (trim line1) (trim line2) then
    (matches, currentMatch ++ [Triple (i + 1) (j + 1) (trim line1)])
  else if 0 <? length currentMatch then
    ((if 2 <=? length currentMatch then matches ++ [currentMatch]
      else matches), [])
  else st.

(** [for (let k = 0; k < xs.length; k++) st = f(st, k, xs[k])] *)
Definition for_each_index {A S : Type} (f : S -> nat -> A -> S) (xs : list A)
    (st : S) : S :=
  foldl (fun st kx => f st (fst kx) (snd kx)) st (imap pair xs).

(** The two nested loops (lines 276-289); the result is the [matches]
    array. *)
Definition line_matches (lines1 lines2 : list jsstring) : list (list entry) :=
  fst (for_each_index
         (fun st i line1 => for_each_index (compare_lines i line1) lines2 st)
         lines1 ([], [])).

(** Lines 263-297. *)
Definition analyzeSimilarity (str1 str2 : jsstring) : analysis :=
  if str_eqb str1 str2 then Analysis (Num 1) [[Whole str1; Whole str2]]
  else if (length str1 <? MIN_DUPLICATE_LENGTH)
          || (length str2 <? MIN_DUPLICATE_LENGTH)
  then Analysis (Num 0) []
  else
    let lines1 := split LF str1 in
    let lines2 := split LF str2 in
    let matches := line_matches lines1 lines2 in
    let longer := if length str2 <? length str1 then str1 else str2 in
    let shorter := if length str2 <? length str1 then str2 else str1 in
    let longerLength := length longer in
    let distance := levenshteinDistance longer shorter in
    let similarity :=
      divide (Z.of_nat longerLength - Z.of_nat distance)
             (Z.of_nat longerLength) in
    Analysis similarity matches.

(** *** Block extraction *)

(** A value of the [codeBlocks] map. *)
Record block : Type := Block { code : jsstring; type : string; name : jsstring }.

(** A [Map] keyed by line: the entries in insertion order, which is the
    order [forEach] visits them. *)
Abbreviation blocks := (list (nat * block)).

(** [codeBlocks.set(location, b)]: an existing key keeps its place and gets
    the new value, a new key goes last. *)
Fixpoint map_set (location : nat) (b : block) (codeBlocks : blocks) : blocks :=
  match codeBlocks with
  | [] => [(location, b)]
  | (l, b') :: rest =>
    if l =? location then (location, b) :: rest
    else (l, b') :: map_set location b rest
  end.

(** [codeBlocks.get(location)] *)
Fixpoint map_get (location : nat) (codeBlocks : blocks) : option block :=
  match codeBlocks with
  | [] => None
  | (l, b) :: rest => if l =? location then Some b else map_get location rest
  end.

(** [obj[key]] on the properties of a node. *)
Fixpoint property (key : string) (props : list (string * value)) : option value :=
  match props with
  | [] => None
  | (k, v) :: rest => if (k =? key)%string then Some v else property key rest
  end.

(** [path.node.id?.name || "anonymous"]; the name of an identifier is a
    string. *)
Definition id_name (n : node) : jsstring :=
  match property "id" (node_others n) with
  | Some (Child id) =>
    match property "name" (node_others id) with
    | Some (Str (c :: s)) => c :: s
    | _ => js "anonymous"
    end
  | _ => js "anonymous"
  end.

(** The test of lines 320-324. *)
Definition is_block (type : string) : bool :=
  (type =? "FunctionDeclaration")%string
  || (type =? "ClassMethod")%string
  || (type =? "ArrowFunctionExpression")%string.

Section Check.
(** [generate(node).code] *)
Variable generate : node -> jsstring.

(** The [enter] callback (lines 319-335). *)
Definition enter (codeBlocks : blocks) (n : node) : blocks :=
  if is_block (node_type n) then
    let code := generate n in
    if MIN_DUPLICATE_LENGTH <=? length code then
      let location := line_of (node_loc n) in
      map_set location (Block code (node_type n) (id_name n)) codeBlocks
    else codeBlocks
  else codeBlocks.

(** [codeBlocks] after the traversal. *)
Definition extract (entered : list node) : blocks :=
  foldl enter [] entered.
End Check.

(** *** Pair comparison *)

(** [String(n)] for a line number. *)
Definition to_string (n : nat) : jsstring :=
  js (NilZero.string_of_uint (Nat.to_uint n)).

(** [a < b] on strings: the order of the code units. *)
Fixpoint less_than (a b : jsstring) : bool :=
  match a, b with
  | _, [] => false
  | [], _ :: _ => true
  | x :: a', y :: b' =>
    if (x <? y)%N then true
    else if (y <? x)%N then false
    else less_than a' b'
  end.

Definition HYPHEN : N := 45%N.

(** [[loc1, loc2].sort().join("-")]: without a comparison function [sort]
    orders its elements by their strings. *)
Definition pair_key (loc1 loc2 : nat) : jsstring :=
  let s1 := to_string loc1 in
  let s2 := to_string loc2 in
  join (js "-") (if less_than s2 s1 then [s2; s1] else [s1; s2]).

(** What [m[k]] can be for an element [m] of a match. *)
Inductive jsval : Type :=
| JUndefined
| JNumber (n : nat)
| JString (s : jsstring).

(** [m[k]]: an element of the triple, or a character of the string. *)
Definition index (m : entry) (k : nat) : jsval :=
  match m with
  | Triple i j text =>
    match k with
    | 0 => JNumber i
    | 1 => JNumber j
    | 2 => JString text
    | _ => JUndefined
    end
  | Whole s =>
    match s !! k with
    | Some c => JString [c]
    | None => JUndefined
    end
  end.

(** An element of [similarLines] (lines 348-354). *)
Record line_mapping : Type := LineMapping {
  block1Lines : list jsval;
  block2Lines : list jsval;
  mapped_code : list jsval
}.

Definition line_mapping_of (m : list entry) : line_mapping :=
  LineMapping (map (fun e => index e 0) m)
              (map (fun e => index e 1) m)
              (map (fun e => index e 2) m).

(** [details.block1] and [details.block2] *)
Record block_ref : Type :=
  BlockRef { startLine : nat; ref_type : string; ref_name : jsstring }.

(** An element of an array as [join] prints it. *)
Definition show (v : jsval) : jsstring :=
  match v with
  | JUndefined => []
  | JNumber n => to_string n
  | JString s => s
  end.

(** [details.message] (lines 372-383). *)
Definition message_of (lineMapping : list line_mapping) : jsstring :=
  js "Found " ++ to_string (length lineMapping)
  ++ js " similar code segments:" ++ [LF]
  ++ join [LF]
       (map (fun mapping =>
               js "- Lines " ++ join (js ",") (map show (block1Lines mapping))
               ++ js " match lines "
               ++ join (js ",") (map show (block2Lines mapping))
               ++ js ":" ++ [LF] ++ js "  "
               ++ join (LF :: js "  ") (map show (mapped_code mapping)))
            lineMapping).

(** A pushed issue (lines 355-385).  [score] is the similarity, which
    [description] prints as a percentage. *)
Record issue : Type := Issue {
  line : nat;
  score : number;
  block1 : block_ref;
  block2 : block_ref;
  similarLines : list line_mapping;
  message : jsstring
}.

(** The body of the inner [forEach] (lines 341-388); the state is
    [(processedPairs, issues)]. *)
Definition compare_pair (st : gset jsstring * list issue)
    (e1 e2 : nat * block) : gset jsstring * list issue :=
  let '(processedPairs, issues) := st in
  let '(loc1, b1) := e1 in
  let '(loc2, b2) := e2 in
  if negb (loc1 =? loc2) then
    let pairKey := pair_key loc1 loc2 in
    if bool_decide (pairKey ∈ processedPairs) then st
    else
      let processedPairs := {[ pairKey ]} ∪ processedPairs in
      let analysis := analyzeSimilarity (code b1) (code b2) in
      if at_least (similarity analysis) SIMILARITY_THRESHOLD then
        let lineMapping := map line_mapping_of (matches analysis) in
        (processedPairs,
         issues ++ [Issue (Nat.min loc1 loc2) (similarity analysis)
                          (BlockRef loc1 (type b1) (name b1))
                          (BlockRef loc2 (type b2) (name b2))
                          lineMapping (message_of lineMapping)])
      else (processedPairs, issues)
  else st.

(** Lines 338-391. *)
Definition compare_blocks (codeBlocks : blocks) : list issue :=
  snd (foldl (fun st e1 =>
                foldl (fun st e2 => compare_pair st e1 e2) st codeBlocks)
             (∅, []) codeBlocks).

Section Run.
(** [babelParser.parse] with the options of lines 245-255,
    [generate(node).code], and the nodes that [traverse] passes to the
    [enter] callback, in the order of the calls. *)
Variable parse : jsstring -> completion file.
Variable generate : node -> jsstring.
Variable traverse : file -> list node.

(** The [check] function of the smell (lines 233-392). *)
Definition check (lines : list jsstring) : run (list issue) :=
  let content := join [LF] lines in
  match parse content with
  | Throw message => Run (Normal []) [parse_error_line message]
  | Normal ast =>
    Run (Normal (compare_blocks (extract generate (traverse ast)))) []
  end.
End Run.

End Duplicate.

(** ** Notions used to state the properties of the nesting check *)

Module Tree.
Import Nesting.

(** [descends n c]: while it handles [n], [detectNestedClosures] calls
    itself on [c]. *)
Inductive descends (n c : node) : Prop :=
| descends_argument args :
    node_type n = "CallExpression"%string ->
    node_arguments n = Some args ->
    In c args ->
    is_function_argument (node_type c) = true ->
    descends n c
| descends_body_element childNodes :
    node_body n = Some (Children childNodes) ->
    In c childNodes ->
    descends n c
| descends_body :
    node_body n = Some (Child c) ->
    descends n c
| descends_property key :
    In (key, Child c) (node_others n) ->
    generic_key key = true ->
    has_type c = true ->
    descends n c.

(** [entered root d m d']: the call on [root] with depth [d] leads to a
    call on [m], in which the depth is [d'] after the increment. *)
Inductive entered : node -> nat -> node -> nat -> Prop :=
| entered_here n d : entered n d n (enter (node_type n) d)
| entered_below n d c m d' :
    descends n c ->
    entered c (enter (node_type n) d) m d' ->
    entered n d m d'.

(** The calls of [detectNestedClosures] that a call on [n] with depth [d]
    makes, itself included, in order: the line and the depth each of them
    tests against the threshold. *)
Fixpoint visits (n : node) (depth : nat) {struct n} : list (nat * nat) :=
  match n with
  | Node type loc arguments body others =>
    let depth := enter type depth in
    (line_of loc, depth)
    :: (if (type =? "CallExpression")%string then
          match arguments with
          | Some args =>
            flat_map (fun arg =>
                        if is_function_argument (node_type arg)
                        then visits arg depth else []) args
          | None => []
          end
        else [])
    ++ match body with
       | Some (Children childNodes) =>
         flat_map (fun childNode => visits childNode depth) childNodes
       | Some (Child b) => visits b depth
       | _ => []
       end
    ++ flat_map (fun kv =>
                   let '(key, v) := kv in
                   if generic_key key then
                     match v with
                     | Child c => if has_type c then visits c depth else []
                     | _ => []
                     end
                   else []) others
  end.

(** The nesting depth of a tree: the largest number of function-like nodes
    on a path from the root, through any property. *)
Fixpoint nesting (n : node) : nat :=
  match n with
  | Node type loc arguments body others =>
    (if is_function type then 1 else 0)
    + Nat.max
        (match arguments with
         | Some args => list_max (map nesting args)
         | None => 0
         end)
        (Nat.max
           (match body with
            | Some v => nesting_value v
            | None => 0
            end)
           (list_max (map (fun kv => let '(_, v) := kv in nesting_value v)
                          others)))
  end
with nesting_value (v : value) : nat :=
  match v with
  | Child c => nesting c
  | Children cs => list_max (map nesting cs)
  | Atom | Str _ => 0
  end.

(** The tree without what the traversal never looks into: the arguments of
    a node that is not a call, the call arguments that are not function
    expressions or arrow functions, and, outside of [body], the arrays and
    the objects without a type tag. *)
Fixpoint prune (n : node) : node :=
  match n with
  | Node type loc arguments body others =>
    Node type loc
      (if (type =? "CallExpression")%string then
         match arguments with
         | Some args =>
           Some (flat_map (fun arg =>
                             if is_function_argument (node_type arg)
                             then [prune arg] else []) args)
         | None => None
         end
       else None)
      (match body with
       | Some (Children childNodes) => Some (Children (map prune childNodes))
       | Some (Child b) => Some (Child (prune b))
       | other => other
       end)
      (flat_map (fun kv =>
                   let '(key, v) := kv in
                   match v with
                   | Child c =>
                     if generic_key key && has_type c
                     then [(key, Child (prune c))] else []
                   | Children _ => []
                   | Atom | Str _ => [(key, v)]
                   end) others)
  end.

(** The test and the report of one call (lines 124-134), on the line and
    depth of that call. *)
Definition observe (maxAllowedDepth : nat) (st : state) (call : nat * nat)
  : state :=
  report maxAllowedDepth (fst call) (snd call) st.

(** The lines of the issues. *)
Definition lines (st : state) : list nat := map line (issues st).

(** The set of reported lines and the issues agree, and no line has two
    issues. *)
Definition consistent (st : state) : Prop :=
  NoDup (lines st) /\ forall l, l ∈ reportedLines st <-> In l (lines st).

(** [reaches n m]: [m] is strictly inside [n] along the calls of the
    traversal, one or more levels below: the body of [n], a callback among
    the arguments of a call inside that body, and so on. *)
Inductive reaches (n : node) : node -> Prop :=
| reaches_child c : descends n c -> reaches n c
| reaches_below c m : descends n c -> reaches c m -> reaches n m.

(** A chain of nested arrow functions: each arrow after the first is
    inside the one before, directly as its body ([a => b => ...]) or further
    down (a callback in the body of a callback). *)
Inductive chain : list node -> Prop :=
| chain_last a :
    node_type a = "ArrowFunctionExpression"%string ->
    chain [a]
| chain_next a b rest :
    node_type a = "ArrowFunctionExpression"%string ->
    reaches a b ->
    chain (b :: rest) ->
    chain (a :: b :: rest).

End Tree.

(** [P] holds of the nodes directly inside a value. *)
Definition value_all (P : node -> Prop) (v : value) : Prop :=
  match v with
  | Child c => P c
  | Children cs => Forall P cs
  | Atom | Str _ => True
  end.

(** ** Sample trees *)

Module Samples.

Definition identifier (l : nat) (name : string) : node :=
  Node "Identifier" (Some l) None None [("name", Str (js name))]%string.

Definition program (statements : list node) : node :=
  Node "Program" (Some 1) None (Some (Children statements))
       [("sourceType", Str (js "module")); ("directives", Children [])]%string.

Definition expression_statement (l : nat) (e : node) : node :=
  Node "ExpressionStatement" (Some l) None None [("expression", Child e)]%string.

Definition block (l : nat) (statements : list node) : node :=
  Node "BlockStatement" (Some l) None (Some (Children statements))
       [("directives", Children [])]%string.

(** [param => body] *)
Definition arrow (l : nat) (param : string) (body : node) : node :=
  Node "ArrowFunctionExpression" (Some l) None (Some (Child body))
       [("generator", Atom); ("async", Atom);
        ("params", Children [identifier l param])]%string.

(** [function () { statements }] *)
Definition function_expression (l : nat) (statements : list node) : node :=
  Node "FunctionExpression" (Some l) None (Some (Child (block l statements)))
       [("generator", Atom); ("async", Atom); ("params", Children [])]%string.

(** [callee(args)] *)
Definition call (l : nat) (callee : string) (args : list node) : node :=
  Node "CallExpression" (Some l) (Some args) None
       [("callee", Child (identifier l callee))]%string.

(** [const name = init;] *)
Definition const (l : nat) (name : string) (init : node) : node :=
  Node "VariableDeclaration" (Some l) None None
       [("declarations",
         Children [Node "VariableDeclarator" (Some l) None None
                        [("id", Child (identifier l name));
                         ("init", Child init)]]);
        ("kind", Str (js "const"))]%string.

(** [a => b => c => d => {}] on line 1. *)
Definition d_arrow : node := arrow 1 "d" (block 1 []).
Definition c_arrow : node := arrow 1 "c" d_arrow.
Definition b_arrow : node := arrow 1 "b" c_arrow.
Definition a_arrow : node := arrow 1 "a" b_arrow.
Definition arrows4 : node := program [expression_statement 1 a_arrow].

(** Four arrow functions, each a callback in the body of the one before:
<<
  f(x => {
    f(x => {
      f(x => {
        f(x => {});
      });
    });
  });
>> *)
Definition callback (l : nat) (statements : list node) : node :=
  arrow l "x" (block l statements).
Definition pass (l : nat) (f : node) : node :=
  expression_statement l (call l "f" [f]).
Definition callback4 : node := callback 4 [].
Definition callback3 : node := callback 3 [pass 4 callback4].
Definition callback2 : node := callback 2 [pass 3 callback3].
Definition callback1 : node := callback 1 [pass 2 callback2].
Definition arrow_callbacks4 : node := program [pass 1 callback1].

(** Three callbacks, one inside the other:
<<
  a(function () {
    b(function () {
      c(function () {});
    });
  });
>> *)
Definition callbacks3 : node :=
  program
    [expression_statement 1 (call 1 "a" [function_expression 1
      [expression_statement 2 (call 2 "b" [function_expression 2
        [expression_statement 3 (call 3 "c" [function_expression 3 []])]])]])].

(** [n] arrow functions, each bound by a [const] in the body of the one
    before:
<<
  const f = () => {
    const f = () => {
      ...
    };
  };
>> *)
Fixpoint const_arrows (n : nat) (l : nat) : list node :=
  match n with
  | 0 => []
  | S k => [const l "f" (arrow l "x" (block l (const_arrows k (S l))))]
  end.

Definition const_nest (n : nat) : node := program (const_arrows n 1).

End Samples.

(** ** Notions used to state the properties of the duplicate check *)

Module Distance.
Import Duplicate.

(** The recurrence of lines 303-313: the value the loops give to
    [matrix[j][i]]. *)
Fixpoint table (str1 str2 : jsstring) (j : nat) : nat -> nat :=
  match j with
  | 0 => fun i => i
  | S j' =>
    fix row (i : nat) : nat :=
      match i with
      | 0 => S j'
      | S i' =>
        Nat.min (Nat.min (row i' + 1) (table str1 str2 j' (S i') + 1))
                (table str1 str2 j' i' + indicator str1 str2 (S i') (S j'))
      end
  end.

(** The matrix has the size it was created with. *)
Definition well_sized (str1 str2 : jsstring) (m : matrix) : Prop :=
  length m = length str2 + 1
  /\ forall j row, m !! j = Some row -> length row = length str1 + 1.

(** The cells selected by [K] hold the values of the recurrence. *)
Definition known (str1 str2 : jsstring) (K : nat -> nat -> Prop) (m : matrix)
  : Prop :=
  well_sized str1 str2 m
  /\ forall j i, j <= length str2 -> i <= length str1 -> K j i ->
       cell m j i = table str1 str2 j i.

End Distance.

Module Extraction.
Import Duplicate.

(** What the [enter] callback records for a node: nothing unless the node
    is a function declaration, class method or arrow function whose
    generated code has the minimum length, and otherwise its line and its
    block. *)
Definition recorded (generate : node -> jsstring) (n : node)
  : option (nat * block) :=
  if is_block (node_type n)
     && (MIN_DUPLICATE_LENGTH <=? length (generate n))
  then Some (line_of (node_loc n),
             Block (generate n) (node_type n) (id_name n))
  else None.

(** The block of the last of the nodes that is recorded at [location]. *)
Definition last_recorded (generate : node -> jsstring) (location : nat)
    (entered : list node) : option block :=
  last (omap (fun n =>
                match recorded generate n with
                | Some (l, b) => if l =? location then Some b else None
                | None => None
                end) entered).

(** [i] is the issue that the comparison of the entries [e1] and [e2]
    pushes. *)
Definition issue_of (e1 e2 : nat * block) (i : issue) : Prop :=
  let analysis := analyzeSimilarity (code (snd e1)) (code (snd e2)) in
  i = Issue (Nat.min (fst e1) (fst e2)) (similarity analysis)
            (BlockRef (fst e1) (type (snd e1)) (name (snd e1)))
            (BlockRef (fst e2) (type (snd e2)) (name (snd e2)))
            (map line_mapping_of (matches analysis))
            (message_of (map line_mapping_of (matches analysis))).

End Extraction.

(** ** Sample source units for the duplicate check *)

Module Units.
Import Samples.

Definition text (lines : list string) : jsstring := join [LF] (map js lines).

Definition numeric_literal (l : nat) : node :=
  Node "NumericLiteral" (Some l) None None [("value", Atom)]%string.

Definition binary (l : nat) (left right : node) : node :=
  Node "BinaryExpression" (Some l) None None
       [("left", Child left); ("operator", Str (js "+"));
        ("right", Child right)]%string.

Definition return_statement (l : nat) (e : node) : node :=
  Node "ReturnStatement" (Some l) None None [("argument", Child e)]%string.

(** The arrow function
<<
  () => {
    const a = 1;
    const b = 2;
    const c = 3;
    return a + b + c;
  }
>> starting at line [l]. *)
Definition sum_arrow (l : nat) : node :=
  Node "ArrowFunctionExpression" (Some l) None
       (Some (Child (block l
          [const (l + 1) "a" (numeric_literal (l + 1));
           const (l + 2) "b" (numeric_literal (l + 2));
           const (l + 3) "c" (numeric_literal (l + 3));
           return_statement (l + 4)
             (binary (l + 4)
                (binary (l + 4) (identifier (l + 4) "a") (identifier (l + 4) "b"))
                (identifier (l + 4) "c"))])))
       [("generator", Atom); ("async", Atom); ("params", Children [])]%string.

Definition sum_arrow_code : jsstring :=
  text ["() => {"; "  const a = 1;"; "  const b = 2;"; "  const c = 3;";
        "  return a + b + c;"; "}"]%string.

Definition sum_arrow_source (name : string) : list jsstring :=
  map js [("const " ++ name ++ " = () => {")%string; "  const a = 1;";
          "  const b = 2;"; "  const c = 3;"; "  return a + b + c;"; "};";
          ""]%string.

(** A source unit with the same arrow function at lines 1, 8 and 15. *)
Definition three_arrows_source : list jsstring :=
  sum_arrow_source "f" ++ sum_arrow_source "g" ++ sum_arrow_source "h".

Definition three_arrows : file :=
  File (program [const 1 "f" (sum_arrow 1); const 8 "g" (sum_arrow 8);
                 const 15 "h" (sum_arrow 15)]).

(** A traversal that enters every node of the tree, parents first. *)
Fixpoint preorder (n : node) : list node :=
  match n with
  | Node _ _ arguments body others =>
    n :: match arguments with
         | Some args => flat_map preorder args
         | None => []
         end
      ++ match body with
         | Some v => preorder_value v
         | None => []
         end
      ++ flat_map (fun kv => let '(_, v) := kv in preorder_value v) others
  end
with preorder_value (v : value) : list node :=
  match v with
  | Child c => preorder c
  | Children cs => flat_map preorder cs
  | Atom | Str _ => []
  end.

(** The code generated for the nodes of [three_arrows] that the check
    prints: its arrow functions. *)
Definition print_sum_arrow (n : node) : jsstring :=
  if (node_type n =? "ArrowFunctionExpression")%string then sum_arrow_code
  else [].

(** Two functions that differ by their name. *)
Definition guarded_f : jsstring :=
  text ["function f() {"; "  if (x) {"; "    g();"; "  }"; "}"]%string.
Definition guarded_h : jsstring :=
  text ["function h() {"; "  if (x) {"; "    g();"; "  }"; "}"]%string.

(** A parser that rejects every input. *)
Definition failing_parse (content : jsstring) : completion file :=
  Throw (js "Unexpected token (1:4)").

End Units.

(** A class method and an arrow function that starts on the line of the
    method's header:
<<
  handler() { return () => 1; }
>> *)
Module SameLine.
Definition inner_arrow : node :=
  Node "ArrowFunctionExpression" (Some 3) None
       (Some (Child (Units.numeric_literal 3)))
       [("generator", Atom); ("async", Atom); ("params", Children [])]%string.
Definition method : node :=
  Node "ClassMethod" (Some 3) None
       (Some (Child (Samples.block 3 [Units.return_statement 3 inner_arrow])))
       [("key", Child (Samples.identifier 3 "handler")); ("kind", Str (js "method"));
        ("params", Children [])]%string.
Definition print (n : node) : jsstring :=
  if (node_type n =? "ClassMethod")%string
  then Units.text ["handler() {"; "  return () => 1;"; "}"]%string
  else js "() => 1".
End SameLine.

(** ** Edit scripts *)

Module Edit.

(** [edits a b n]: reading both strings from the left, [a] is turned into
    [b] with [n] insertions, deletions and substitutions of one character. *)
Inductive edits : jsstring -> jsstring -> nat -> Prop :=
| edits_nil : edits [] [] 0
| edits_keep x a b n : edits a b n -> edits (x :: a) (x :: b) n
| edits_substitute x y a b n : edits a b n -> edits (x :: a) (y :: b) (S n)
| edits_delete x a b n : edits a b n -> edits (x :: a) b (S n)
| edits_insert y a b n : edits a b n -> edits a (y :: b) (S n).

End Edit.

(** ** Notions used to state the properties of the line clusters *)

Module Cluster.
Import Duplicate.

(** [e] records a pair of lines of [lines1] and [lines2], by their 1-based
    numbers, that are equal once trimmed, together with that text. *)
Definition matching_pair (lines1 lines2 : list jsstring) (e : entry) : Prop :=
  exists i j line1 line2,
    e = Triple (i + 1) (j + 1) (trim line1)
    /\ lines1 !! i = Some line1
    /\ lines2 !! j = Some line2
    /\ trim line1 = trim line2.

End Cluster.

(** ** Notions used to state the properties of the pair comparison *)

Module Pairs.
Import Duplicate.

(** The issue that the comparison of the entries [e1] and [e2] pushes
    (lines 348-385). *)
Definition pair_issue (e1 e2 : nat * block) : issue :=
  let analysis := analyzeSimilarity (code (snd e1)) (code (snd e2)) in
  let lineMapping := map line_mapping_of (matches analysis) in
  Issue (Nat.min (fst e1) (fst e2)) (similarity analysis)
        (BlockRef (fst e1) (type (snd e1)) (name (snd e1)))
        (BlockRef (fst e2) (type (snd e2)) (name (snd e2)))
        lineMapping (message_of lineMapping).

(** What the comparison of [e1] and [e2] adds to the issues: the issue of
    the pair when its score reaches the threshold. *)
Definition reported (e1 e2 : nat * block) : list issue :=
  if at_least (similarity (analyzeSimilarity (code (snd e1)) (code (snd e2))))
              SIMILARITY_THRESHOLD
  then [pair_issue e1 e2] else [].


End Pairs.

(** ** detector.js: the analysis of one file *)

Module Detector.
Import Duplicate.

(** What a check returns for one place: its line and its description. *)
Record occurrence : Type := Occurrence { at_line : nat; says : jsstring }.

(** An element of [codeSmells]: its name, its [check] called with the
    lines, the path of the file and the root of the project, and its [fix]
    text, which a smell may lack. *)
Record smell : Type := Smell {
  name : jsstring;
  check : list jsstring -> jsstring -> jsstring -> run (list occurrence);
  fix_ : option jsstring
}.

(** A value of the [smellsDetected] map (lines 88-94). *)
Record finding : Type := Finding {
  file : jsstring;
  line : nat;
  smell_name : jsstring;
  description : jsstring;
  fix_text : option jsstring
}.

(** The key [`${filePath}-${occurrence.line}-${smell.name}`] (line 86). *)
Definition key_of (filePath : jsstring) (l : nat) (smellName : jsstring)
  : jsstring :=
  filePath ++ js "-" ++ to_string l ++ js "-" ++ smellName.

(** [smellsDetected.has(key)] *)
Definition has (key : jsstring) (smellsDetected : list (jsstring * finding))
  : bool :=
  existsb (fun kv => str_eqb (fst kv) key) smellsDetected.

Definition finding_of (filePath : jsstring) (s : smell) (o : occurrence)
  : finding :=
  Finding filePath (at_line o) (name s) (says o) (fix_ s).

(** The body of the inner [forEach] (lines 85-96); [smellsDetected] is the
    map in insertion order. *)
Definition record_occurrence (filePath : jsstring) (s : smell)
    (smellsDetected : list (jsstring * finding)) (o : occurrence)
  : list (jsstring * finding) :=
  let key := key_of filePath (at_line o) (name s) in
  if negb (has key smellsDetected)
  then smellsDetected ++ [(key, finding_of filePath s o)]
  else smellsDetected.

(** [array.includes(x)] on strings. *)
Definition includes (x : jsstring) (array : list jsstring) : bool :=
  existsb (str_eqb x) array.

Section AnalyzeFile.
(** [fs.readFileSync(filePath, "utf-8")] and the list [codeSmells]. *)
Variable readFileSync : jsstring -> completion jsstring.
Variable codeSmells : list smell.

(** What [console.error(first, second)] writes for two strings: Node
    passes its arguments to [util.format], which reads the first one as a
    format string.  Without a placeholder in it the two strings are
    written separated by a space; a placeholder such as [%s] is replaced
    by the second string. *)
Variable format : jsstring -> jsstring -> jsstring.

(** The outer [forEach] (lines 83-97): a check that throws ends the loop
    and the function. *)
Fixpoint run_checks (lines : list jsstring) (filePath projectRoot : jsstring)
    (smellsToCheck : list smell) (smellsDetected : list (jsstring * finding))
    (printed : list jsstring) : run (list (jsstring * finding)) :=
  match smellsToCheck with
  | [] => Run (Normal smellsDetected) printed
  | s :: rest =>
    let r := check s lines filePath projectRoot in
    match ends r with
    | Throw message => Run (Throw message) (printed ++ console r)
    | Normal occurrences =>
      run_checks lines filePath projectRoot rest
        (foldl (record_occurrence filePath s) smellsDetected occurrences)
        (printed ++ console r)
    end
  end.

(** [selectedSmells ? codeSmells.filter(...) : codeSmells] (lines 79-81);
    [None] is [null]. *)
Definition smells_to_check (selectedSmells : option (list jsstring))
  : list smell :=
  match selectedSmells with
  | Some selected => filter (fun s => includes (name s) selected) codeSmells
  | None => codeSmells
  end.

(** [analyzeFile] (lines 60-100); the result is what the promise settles
    with.  The first argument of the [console.error] of line 65 holds the
    path; [console.warn] of line 71 has one argument, which is written as
    it is. *)
Definition analyzeFile (filePath projectRoot : jsstring)
    (selectedSmells : option (list jsstring)) : run (list finding) :=
  match readFileSync filePath with
  | Throw message =>
    Run (Normal [])
        [format (js "Error reading file " ++ filePath ++ js ":") message]
  | Normal content =>
    match trim content with
    | [] => Run (Normal []) [js "Skipping empty file: " ++ filePath]
    | _ :: _ =>
      let lines := split LF content in
      let r := run_checks lines filePath projectRoot
                          (smells_to_check selectedSmells) [] [] in
      match ends r with
      | Throw message => Run (Throw message) (console r)
      | Normal smellsDetected =>
        Run (Normal (map snd smellsDetected)) (console r)
      end
    end
  end.
End AnalyzeFile.

(** The entry of [smellsDetected] made for an occurrence of a smell. *)
Definition entry_of (filePath : jsstring) (so : smell * occurrence)
  : jsstring * finding :=
  (key_of filePath (at_line (snd so)) (name (fst so)),
   finding_of filePath (fst so) (snd so)).

(** The occurrences of a check that returns. *)
Definition returned (r : run (list occurrence)) : list occurrence :=
  match ends r with
  | Normal occurrences => occurrences
  | Throw _ => []
  end.

(** The occurrences of the checks in the order in which the loops see
    them, each with its smell. *)
Definition all_occurrences (lines : list jsstring)
    (filePath projectRoot : jsstring) (smellsToCheck : list smell)
  : list (smell * occurrence) :=
  flat_map (fun s => map (pair s) (returned (check s lines filePath projectRoot)))
           smellsToCheck.

(** Of the occurrences with the same line and the same smell name, the
    first one. *)
Fixpoint keep_first (seen : list (nat * jsstring))
    (occurrences : list (smell * occurrence)) : list (smell * occurrence) :=
  match occurrences with
  | [] => []
  | (s, o) :: rest =>
    if bool_decide ((at_line o, name s) ∈ seen) then keep_first seen rest
    else (s, o) :: keep_first ((at_line o, name s) :: seen) rest
  end.

End Detector.

(** Sample smells: one that reports line 1 twice, one whose check throws. *)
Module Smells.
Import Detector.
Definition twice : smell :=
  Smell (js "Lengthy Lines")
        (fun _ _ _ =>
           Run (Normal [Occurrence 1 (js "first"); Occurrence 1 (js "second");
                        Occurrence 2 (js "third")]) [])
        (Some (js "Break lengthy lines")).
Definition throwing : smell :=
  Smell (js "Broken") (fun _ _ _ => Run (Throw (js "boom")) []) None.
Definition read_one_line (path : jsstring) : completion jsstring :=
  Normal (js "const x = 1;").
(** [util.format] on a first argument without a percent sign, as the
    paths of the samples give: it holds no placeholder. *)
Definition format_plain (first second : jsstring) : jsstring :=
  first ++ js " " ++ second.
End Smells.

(** ** smells.js: checks on the text of the lines *)

Module Textual.
Import Duplicate Detector.

Definition COMMA : N := 44%N.

(** *** Check 1: Lengthy Lines *)

Definition MAX_LENGTH : nat := 100.
Definition WARNING_THRESHOLD : nat := 80.

Section LengthyLines.
(** The tests of the three regular expressions of lines 13-16 on a line;
    none of them has the [g] flag, so [test] depends on the line only. *)
Variables tailwindRegex jsxTagRegex commentRegex : jsstring -> bool.

(** The callback of [lines.forEach] (lines 18-44): what it pushes for the
    line at index [idx]. *)
Definition lengthy_line (idx : nat) (line : jsstring) : list occurrence :=
  let length := length line in
  if tailwindRegex line || jsxTagRegex line || commentRegex line then []
  else if MAX_LENGTH <? length then
    [Occurrence (idx + 1)
       (js "Line exceeds " ++ to_string MAX_LENGTH ++ js " characters ("
        ++ to_string length ++ js " characters)."
        ++ js " Consider breaking it into multiple lines for better readability.")]
  else if WARNING_THRESHOLD <? length then
    [Occurrence (idx + 1)
       (js "Line exceeds " ++ to_string WARNING_THRESHOLD ++ js " characters ("
        ++ to_string length
        ++ js " characters). This is a warning; consider shortening it.")]
  else [].

(** The [check] of the smell (lines 9-46). *)
Definition lengthy_lines (lines : list jsstring) : list occurrence :=
  concat (imap lengthy_line lines).
End LengthyLines.

(** *** Check 2: Long Parameter List *)

Section LongParameterList.
(** [line.match(functionRegex)] (line 61): [None] when the line does not
    match, and otherwise the two groups of the expression, each [None]
    when it is [undefined]. *)
Variable functionRegex : jsstring -> option (option jsstring * option jsstring).

(** [a || b] on values that are a string or [undefined]. *)
Definition or_else (a : option jsstring) (b : jsstring) : jsstring :=
  match a with
  | Some (c :: s) => c :: s
  | _ => b
  end.

(** [(match[1] || match[2] || "").split(",").map((param) => param.trim())] *)
Definition params_of (groups : option jsstring * option jsstring)
  : list jsstring :=
  map trim (split COMMA (or_else (fst groups) (or_else (snd groups) []))).

(** The callback of [lines.forEach] (lines 60-77). *)
Definition long_parameter_line (idx : nat) (line : jsstring)
  : list occurrence :=
  match functionRegex line with
  | Some groups =>
    let params := params_of groups in
    if 2 <? length params then
      [Occurrence (idx + 1)
         (js "Function has " ++ to_string (length params)
          ++ js " parameters, which exceeds the recommended limit of 2."
          ++ js " Consider refactoring the function to use a single configuration object or simplifying the function's responsibilities.")]
    else []
  | None => []
  end.

(** The [check] of the smell (lines 55-79). *)
Definition long_parameter_list (lines : list jsstring) : list occurrence :=
  concat (imap long_parameter_line lines).
End LongParameterList.

(** *** Check 10: Large Objects *)

Section LargeObjects.
(** The successive results of [objectRegex.exec(fullContent)] until it
    returns [null] (lines 556-558): for each match its [index] and its
    group 1.  A match of the expression is not empty, so the loop ends. *)
Variable objectRegex : jsstring -> list (nat * jsstring).

(** [fullContent.slice(0, index).split("\n").length] (lines 566-568), for
    an index inside the text. *)
Definition line_number (fullContent : jsstring) (index : nat) : nat :=
  length (split LF (take index fullContent)).

(** The body of the loop (lines 559-573). *)
Definition large_object (fullContent : jsstring) (m : nat * jsstring)
  : list occurrence :=
  let objectContent := snd m in
  let properties := length (split COMMA objectContent) in
  let threshold := 10 in
  if threshold <=? properties then
    [Occurrence (line_number fullContent (fst m))
       (js "Object has too many properties (" ++ to_string properties
        ++ js " properties). Consider breaking it into smaller objects to reduce complexity and potential security risks.")]
  else [].

(** The [check] of the smell (lines 552-576). *)
Definition large_objects (lines : list jsstring) : list occurrence :=
  let fullContent := join [LF] lines in
  flat_map (large_object fullContent) (objectRegex fullContent).
End LargeObjects.

End Textual.

(** * Properties *)

(** ** Induction on syntax trees *)

Section NodeInduction.
Variable P : node -> Prop.
Hypothesis step : forall type loc arguments body others,
  from_option (Forall P) True arguments ->
  from_option (value_all P) True body ->
  Forall (fun kv => value_all P (snd kv)) others ->
  P (Node type loc arguments body others).

Lemma node_induction : forall n, P n.
Proof using step.
  fix IH 1. intros [type loc arguments body others].
  assert (all : forall ns, Forall P ns).
  { induction ns as [|x ns IHns]; constructor; [apply IH | exact IHns]. }
  assert (val : forall v, value_all P v).
  { intros [| s | c | cs]; simpl; auto. }
  apply step.
  - destruct arguments; simpl; auto.
  - destruct body; simpl; auto.
  - induction others as [|[k v] others IHo]; constructor; auto.
Qed.
End NodeInduction.

(** ** Folds *)

Lemma foldl_flat_map {A B C : Type} (f : A -> C -> A) (g : B -> list C) xs a :
  foldl f a (flat_map g xs) = foldl (fun a x => foldl f a (g x)) a xs.
Proof.
  revert a. induction xs as [|x xs IH]; intros a; simpl; [reflexivity|].
  rewrite foldl_app. apply IH.
Qed.

Lemma foldl_calls {A B C : Type} (h : A -> B -> A) (f : A -> C -> A)
    (g : B -> list C) xs :
  Forall (fun x => forall a, h a x = foldl f a (g x)) xs ->
  forall a, foldl h a xs = foldl f a (flat_map g xs).
Proof.
  intros Hall a. rewrite foldl_flat_map. revert a.
  induction Hall as [|x xs Hx _ IH]; intros a; simpl; [reflexivity|].
  rewrite Hx. apply IH.
Qed.

(** ** The nesting check as a fold over its calls *)

Section NestingFacts.
Import Nesting Tree.
Variable maxD : nat.

Ltac fold_calls xs :=
  match goal with
  | |- foldl ?h ?a xs = foldl ?f ?b (flat_map ?g xs) =>
    transitivity (foldl f a (flat_map g xs));
    [apply (foldl_calls h f g) | f_equal]
  end.

Lemma detect_visits n : forall d st,
  detectNestedClosures maxD n d st = foldl (observe maxD) st (visits n d).
Proof using Type.
  induction n as [type loc arguments body others IHa IHb IHo]
    using node_induction.
  intros d st. cbn [detectNestedClosures visits].
  set (d' := enter type d).
  cbn [foldl].
  change (observe maxD st (line_of loc, d'))
    with (report maxD (line_of loc) d' st).
  generalize (report maxD (line_of loc) d' st). clear st. intros st.
  rewrite !foldl_app.
  fold_calls others.
  { eapply Forall_impl; [exact IHo|].
    intros [key v] Hv a. cbn [snd] in Hv.
    destruct (generic_key key); [|reflexivity].
    destruct v as [| ? | c | ?]; try reflexivity.
    destruct (has_type c); [|reflexivity]. apply Hv. }
  assert (Hargs : forall s : state,
    (if (type =? "CallExpression")%string then
       match arguments with
       | Some args =>
         foldl (fun st arg =>
                  if is_function_argument (node_type arg)
                  then detectNestedClosures maxD arg d' st else st) s args
       | None => s
       end
     else s)
    = foldl (observe maxD) s
        (if (type =? "CallExpression")%string then
           match arguments with
           | Some args =>
             flat_map (fun arg =>
                         if is_function_argument (node_type arg)
                         then visits arg d' else []) args
           | None => []
           end
         else [])).
  { intros s. destruct (type =? "CallExpression")%string; [|reflexivity].
    destruct arguments as [args|]; [|reflexivity].
    apply foldl_calls.
    eapply Forall_impl; [exact IHa|]. intros arg Harg a. cbn beta.
    destruct (is_function_argument (node_type arg)); [apply Harg|reflexivity]. }
  destruct body as [[| s | b | cs]|]; cbn [from_option value_all] in IHb.
  - apply Hargs.
  - apply Hargs.
  - rewrite IHb. f_equal. apply Hargs.
  - fold_calls cs; [|apply Hargs].
    eapply Forall_impl; [exact IHb|]. intros c Hc a. apply Hc.
  - apply Hargs.
Qed.

(** *** What a sequence of calls reports *)

Lemma report_cases l d st :
  (report maxD l d st = st /\ (d <= maxD \/ l ∈ reportedLines st))
  \/ (report maxD l d st
      = State (issues st ++ [Issue l d]) ({[ l ]} ∪ reportedLines st)
      /\ maxD < d /\ l ∉ reportedLines st).
Proof using Type.
  unfold report. destruct (Nat.ltb_spec maxD d) as [Hlt|Hge].
  - destruct (bool_decide_reflect (l ∈ reportedLines st)); [left|right]; auto.
  - left. split; [reflexivity|left; lia].
Qed.

Lemma report_consistent l d st :
  consistent st -> consistent (report maxD l d st).
Proof using Type.
  intros [Hnd Hset].
  destruct (report_cases l d st) as [[-> _]|(-> & _ & Hfresh)]; [split; auto|].
  unfold consistent, lines. cbn [issues reportedLines].
  rewrite map_app. cbn [map line]. split.
  - apply NoDup_app. repeat split.
    + exact Hnd.
    + intros x Hx Hx'. apply list_elem_of_In in Hx. apply list_elem_of_In in Hx'.
      destruct Hx' as [<-|[]]. apply Hfresh, Hset, Hx.
    + apply NoDup_singleton.
  - intros x. rewrite in_app_iff, elem_of_union, elem_of_singleton, Hset.
    cbn [In]. intuition.
Qed.

Lemma observe_consistent calls : forall st,
  consistent st -> consistent (foldl (observe maxD) st calls).
Proof using Type.
  induction calls as [|[l d] calls IH]; intros st Hst; [exact Hst|].
  apply IH, report_consistent, Hst.
Qed.

Lemma report_keeps l d st x : In x (lines st) -> In x (lines (report maxD l d st)).
Proof using Type.
  intros Hx. destruct (report_cases l d st) as [[-> _]|(-> & _)]; [exact Hx|].
  unfold lines. cbn [issues]. rewrite map_app, in_app_iff. now left.
Qed.

Lemma observe_keeps calls : forall st x,
  In x (lines st) -> In x (lines (foldl (observe maxD) st calls)).
Proof using Type.
  induction calls as [|[l d] calls IH]; intros st x Hx; [exact Hx|].
  apply IH, report_keeps, Hx.
Qed.

(** Every call above the threshold has its line among the issues. *)
Lemma observe_reports calls : forall st l d,
  consistent st -> In (l, d) calls -> maxD < d ->
  In l (lines (foldl (observe maxD) st calls)).
Proof using Type.
  induction calls as [|[l' d'] calls IH]; intros st l d Hst Hin Hd; [destruct Hin|].
  destruct Hin as [[= -> ->]|Hin].
  - cbn [foldl]. apply observe_keeps.
    change (observe maxD st (l, d)) with (report maxD l d st).
    destruct (report_cases l d st) as [[-> [Hle|Hseen]]|(-> & _)].
    + lia.
    + apply Hst, Hseen.
    + unfold lines. cbn [issues]. rewrite map_app, in_app_iff. right. now left.
  - cbn [foldl]. apply (IH _ l d); auto.
    change (observe maxD st (l', d')) with (report maxD l' d' st).
    apply report_consistent, Hst.
Qed.

(** Every issue comes from a call above the threshold. *)
Lemma observe_origin calls : forall st i,
  In i (issues (foldl (observe maxD) st calls)) ->
  In i (issues st) \/ (In (line i, depth i) calls /\ maxD < depth i).
Proof using Type.
  induction calls as [|[l d] calls IH]; intros st i Hi; [now left|].
  cbn [foldl] in Hi. apply IH in Hi.
  destruct Hi as [Hi|[Hi Hd]]; [|right; split; [now right|exact Hd]].
  change (observe maxD st (l, d)) with (report maxD l d st) in Hi.
  destruct (report_cases l d st) as [[E _]|(E & Hd & _)]; rewrite E in Hi.
  - now left.
  - cbn [issues] in Hi. apply in_app_iff in Hi. destruct Hi as [Hi|[<-|[]]].
    + now left.
    + right. split; [now left|exact Hd].
Qed.

(** Calls that stay under the threshold report nothing. *)
Lemma observe_quiet calls : forall st,
  Forall (fun call => snd call <= maxD) calls ->
  foldl (observe maxD) st calls = st.
Proof using Type.
  induction calls as [|[l d] calls IH]; intros st Hall; [reflexivity|].
  inversion Hall as [|? ? Hd Hrest]; subst. cbn [foldl].
  change (observe maxD st (l, d)) with (report maxD l d st).
  cbn [fst snd] in *. unfold report.
  destruct (Nat.ltb_spec maxD d); [lia|]. apply IH, Hrest.
Qed.

Lemma initial_consistent : consistent initial.
Proof using Type.
  split; [constructor|]. intros l. unfold lines. cbn. set_solver.
Qed.
End NestingFacts.

(** ** The calls of the traversal and the descent relation *)

Section Calls.
Import Nesting Tree.

Lemma descends_visits n c d x :
  descends n c -> In x (visits c (enter (node_type n) d)) -> In x (visits n d).
Proof.
  destruct n as [type loc arguments body others].
  intros Hdesc Hx. cbn [visits]. right. rewrite !in_app_iff.
  destruct Hdesc as [args Ht Ha Hin Hf | cs Hb Hin | Hb | key Hin Hk Ht];
    cbn [node_type node_arguments node_body node_others] in *; subst.
  - left. cbn [String.eqb Ascii.eqb Bool.eqb].
    apply in_flat_map. exists c. split; [exact Hin|]. now rewrite Hf.
  - right; left. apply in_flat_map. exists c. auto.
  - right; left. exact Hx.
  - right; right. apply in_flat_map. exists (key, Child c).
    split; [exact Hin|]. now rewrite Hk, Ht.
Qed.

Lemma entered_visits n d m d' :
  entered n d m d' -> In (line_of (node_loc m), d') (visits n d).
Proof.
  induction 1 as [[type loc arguments body others] d | n d c m d' Hdesc _ IH].
  - now left.
  - eapply descends_visits; eauto.
Qed.

Lemma visits_entered n : forall d l d',
  In (l, d') (visits n d) ->
  exists m, entered n d m d' /\ l = line_of (node_loc m).
Proof.
  induction n as [type loc arguments body others IHa IHb IHo]
    using node_induction.
  intros d l d'. cbn [visits]. set (n := Node type loc arguments body others).
  change (enter type d) with (enter (node_type n) d).
  intros [[= <- <-]|Hin].
  { exists n. split; [apply entered_here|reflexivity]. }
  assert (Hdown : forall c, descends n c ->
            (forall d l d', In (l, d') (visits c d) ->
               exists m, entered c d m d' /\ l = line_of (node_loc m)) ->
            In (l, d') (visits c (enter (node_type n) d)) ->
            exists m, entered n d m d' /\ l = line_of (node_loc m)).
  { intros c Hdesc IH Hc. destruct (IH _ _ _ Hc) as (m & Hm & ->).
    exists m. split; [|reflexivity]. eapply entered_below; eauto. }
  rewrite !in_app_iff in Hin. destruct Hin as [Hin|[Hin|Hin]].
  - destruct (type =? "CallExpression")%string eqn:Ht; [|destruct Hin].
    apply String.eqb_eq in Ht.
    destruct arguments as [args|]; [|destruct Hin]. cbn in IHa.
    apply in_flat_map in Hin. destruct Hin as (arg & Harg & Hin).
    destruct (is_function_argument (node_type arg)) eqn:Hf; [|destruct Hin].
    apply (Hdown arg); auto.
    + now apply (descends_argument n arg args).
    + rewrite List.Forall_forall in IHa. now apply IHa.
  - destruct body as [[| s | b | cs]|]; try destruct Hin; cbn in IHb.
    + apply (Hdown b); auto. now apply descends_body.
    + apply in_flat_map in Hin. destruct Hin as (c & Hc & Hin).
      apply (Hdown c); auto.
      * now apply (descends_body_element n c cs).
      * rewrite List.Forall_forall in IHb. now apply IHb.
  - apply in_flat_map in Hin. destruct Hin as ([key v] & Hkv & Hin).
    destruct (generic_key key) eqn:Hk; [|destruct Hin].
    destruct v as [| ? | c | ?]; try destruct Hin.
    destruct (has_type c) eqn:Ht; [|destruct Hin].
    apply (Hdown c); auto.
    + now apply (descends_property n c key).
    + rewrite List.Forall_forall in IHo. apply (IHo _ Hkv).
Qed.

Lemma entered_trans r d0 a da :
  entered r d0 a da -> forall c m d',
  descends a c -> entered c da m d' -> entered r d0 m d'.
Proof.
  induction 1 as [a d0 | n d0 c0 a da Hdesc _ IH]; intros c m d' Hc Hm.
  - eapply entered_below; eauto.
  - eapply entered_below; [exact Hdesc|]. eapply IH; eauto.
Qed.

Lemma entered_function r d0 m d :
  entered r d0 m d -> is_function (node_type m) = true -> 1 <= d.
Proof.
  induction 1 as [n d0 | n d0 c m d Hdesc _ IH]; intros Hf; [|auto].
  unfold enter. rewrite Hf. lia.
Qed.

Lemma enter_ge type d : d <= enter type d.
Proof. unfold enter. destruct (is_function type); lia. Qed.

(** What is inside an entered node is entered, and no less deep. *)
Lemma entered_reaches a b :
  reaches a b -> forall r d0 da,
  entered r d0 a da ->
  exists db, entered r d0 b db /\ enter (node_type b) da <= db.
Proof.
  induction 1 as [a c Hdesc | a c m Hdesc _ IH]; intros r d0 da Ha.
  - exists (enter (node_type c) da). split; [|lia].
    apply (entered_trans r d0 a da Ha c c _ Hdesc), entered_here.
  - destruct (IH r d0 (enter (node_type c) da)) as (db & Hm & Hdb).
    { apply (entered_trans r d0 a da Ha c c _ Hdesc), entered_here. }
    exists db. split; [exact Hm|].
    pose proof (enter_ge (node_type c) da). unfold enter in *.
    destruct (is_function (node_type m)); lia.
Qed.

Lemma chain_head_arrow a rest :
  chain (a :: rest) -> node_type a = "ArrowFunctionExpression"%string.
Proof. now inversion 1. Qed.

(** The arrows of a chain are entered one level deeper each, or more. *)
Lemma chain_entered arrows :
  chain arrows -> forall r d0 a rest da,
  arrows = a :: rest -> entered r d0 a da ->
  forall i b, nth_error arrows i = Some b ->
  exists db, entered r d0 b db /\ da + i <= db.
Proof.
  induction 1 as [a Ha | a b rest Ha Hb Hch IH];
    intros r d0 a' rest' da [= <- <-] Hin i x Hx.
  - destruct i as [|[|i]]; cbn in Hx; try discriminate.
    injection Hx as <-. exists da. split; [exact Hin|lia].
  - destruct i as [|i]; cbn in Hx.
    + injection Hx as <-. exists da. split; [exact Hin|lia].
    + destruct (entered_reaches a b Hb r d0 da Hin) as (db & Hb1 & Hb2).
      apply chain_head_arrow in Hch as Hfb. unfold enter in Hb2.
      rewrite Hfb in Hb2. cbn in Hb2.
      destruct (IH r d0 b rest db eq_refl Hb1 i x Hx) as (dx & Hx1 & Hx2).
      exists dx. split; [exact Hx1|lia].
Qed.
End Calls.

(** ** Nesting depth and pruning *)

Section Depth.
Import Nesting Tree.

Lemma list_max_map_ge {A : Type} (f : A -> nat) x l :
  In x l -> f x <= list_max (map f l).
Proof.
  induction l as [|y l IH]; intros Hin; [destruct Hin|].
  cbn [map list_max foldr]. destruct Hin as [->|Hin]; [lia|].
  specialize (IH Hin). unfold list_max in IH. lia.
Qed.

Lemma descends_nesting n c :
  descends n c ->
  (if is_function (node_type n) then 1 else 0) + nesting c <= nesting n.
Proof.
  destruct n as [type loc arguments body others].
  intros Hdesc. cbn [nesting node_type]. apply Nat.add_le_mono_l.
  destruct Hdesc as [args _ Ha Hin _ | cs Hb Hin | Hb | key Hin _ _];
    cbn [node_arguments node_body node_others] in *; subst.
  - pose proof (list_max_map_ge nesting c args Hin). lia.
  - cbn [nesting_value]. pose proof (list_max_map_ge nesting c cs Hin). lia.
  - cbn [nesting_value]. lia.
  - pose proof (list_max_map_ge
      (fun kv : string * value => let '(_, v) := kv in nesting_value v)
      _ _ Hin) as Hle. cbn in Hle. lia.
Qed.

Lemma entered_depth n d m d' : entered n d m d' -> d' <= d + nesting n.
Proof.
  induction 1 as [[type loc arguments body others] d | n d c m d' Hdesc _ IH].
  - unfold enter. cbn [node_type nesting]. destruct (is_function type); lia.
  - pose proof (descends_nesting n c Hdesc). unfold enter in IH.
    destruct (is_function (node_type n)); lia.
Qed.

(** A tree whose nesting stays within the threshold yields no issue. *)
Lemma nesting_quiet maxD n : nesting n <= maxD -> analyze maxD n = [].
Proof.
  intros Hn. unfold analyze. rewrite detect_visits, observe_quiet; [reflexivity|].
  apply List.Forall_forall. intros [l d] Hin.
  apply visits_entered in Hin. destruct Hin as (m & Hm & _).
  apply entered_depth in Hm. cbn [snd]. lia.
Qed.

Lemma node_type_prune n : node_type (prune n) = node_type n.
Proof. destruct n; reflexivity. Qed.

Lemma has_type_prune n : has_type (prune n) = has_type n.
Proof. unfold has_type. now rewrite node_type_prune. Qed.

Lemma visits_prune n : forall d, visits (prune n) d = visits n d.
Proof.
  induction n as [type loc arguments body others IHa IHb IHo]
    using node_induction.
  intros d. cbn [prune visits]. set (d' := enter type d). do 2 f_equal.
  { destruct (type =? "CallExpression")%string; [|reflexivity].
    destruct arguments as [args|]; [|reflexivity]. cbn in IHa.
    induction IHa as [|arg args Harg _ IH]; [reflexivity|]. cbn [flat_map].
    destruct (is_function_argument (node_type arg)) eqn:Hf.
    - cbn [app flat_map]. rewrite node_type_prune, Hf, Harg. now f_equal.
    - exact IH. }
  f_equal.
  { destruct body as [[| s | b | cs]|]; try reflexivity; cbn in IHb.
    - apply IHb.
    - induction IHb as [|c cs Hc _ IH]; [reflexivity|].
      cbn [map flat_map]. now rewrite Hc, IH. }
  induction IHo as [|[key v] others Hv _ IH]; [reflexivity|].
  cbn [flat_map]. rewrite <- IH. clear IH.
  destruct v as [| s | c | cs]; cbn [snd value_all] in Hv.
  - cbn. now destruct (generic_key key).
  - cbn. now destruct (generic_key key).
  - destruct (generic_key key) eqn:Hk; cbn [andb].
    + destruct (has_type c) eqn:Ht.
      * cbn [app flat_map]. now rewrite Hk, has_type_prune, Ht, Hv.
      * reflexivity.
    + reflexivity.
  - now destruct (generic_key key).
Qed.

Lemma analyze_prune maxD n : analyze maxD (prune n) = analyze maxD n.
Proof. unfold analyze. now rewrite !detect_visits, visits_prune. Qed.

Lemma skipn_nth_error {A : Type} (x : A) : forall n l,
  In x (skipn n l) -> exists i, n <= i /\ nth_error l i = Some x.
Proof.
  induction n as [|n IH]; intros l Hin.
  - apply In_nth_error in Hin. destruct Hin as [i Hi]. exists i. split; [lia|auto].
  - destruct l as [|y l]; [destruct Hin|]. cbn [skipn] in Hin.
    destruct (IH _ Hin) as (i & Hi & Hnth). exists (S i). split; [lia|auto].
Qed.
End Depth.

(** ** Properties of the nesting check *)

Section NestingProperties.
Import Nesting Tree Samples.

(** C2.  A tree in which no path from the root, through whatever
    property (bodies, call arguments or any other), crosses more than
    [maxNestingDepth] function declarations, function expressions or
    arrow functions makes the analyzer return the empty list. *)
Theorem shallow_tree_no_violation (maxNestingDepth : nat) (root : node) :
  nesting root <= maxNestingDepth ->
  analyze maxNestingDepth root = [].
Proof. apply nesting_quiet. Qed.

Lemma shallow_tree_no_violation_witness :
  nesting callbacks3 <= 3 /\ analyze 3 callbacks3 = [].
Proof.
  split; [vm_compute; lia|].
  apply (shallow_tree_no_violation 3 callbacks3). vm_compute. lia.
Defined.

(** C3.  A line triggers when the traversal enters a node of that line
    at a depth above [maxNestingDepth].  In every tree, and so in every
    tree that contains a chain of [maxNestingDepth + k] nested arrow
    functions, the lines of the violations are pairwise distinct, every
    triggering line has exactly one violation, and every violation comes
    from a node entered above the threshold, with the depth of that node.
    When the traversal enters the first arrow of such a chain ([k >= 1],
    each arrow inside the one before along the calls of the traversal, as
    its body or as a callback further down), the lines of the arrows past
    the first [maxNestingDepth] trigger: each has exactly one violation,
    and there is at least one violation.  A chain that the traversal does
    not enter triggers nothing, and the first three statements are all
    that holds of it. *)
Theorem one_violation_per_line (maxNestingDepth : nat) (root : node) :
  let violations := analyze maxNestingDepth root in
  let found := map line violations in
  List.NoDup found
  /\ (forall m dm, entered root 0 m dm -> maxNestingDepth < dm ->
      count_occ Nat.eq_dec found (line_of (node_loc m)) = 1)
  /\ (forall i, In i violations ->
      maxNestingDepth < depth i
      /\ exists m, entered root 0 m (depth i)
                   /\ line i = line_of (node_loc m))
  /\ (forall k a rest d,
      1 <= k ->
      length (a :: rest) = maxNestingDepth + k ->
      chain (a :: rest) ->
      entered root 0 a d ->
      violations <> []
      /\ forall b, In b (skipn maxNestingDepth (a :: rest)) ->
           count_occ Nat.eq_dec found (line_of (node_loc b)) = 1).
Proof.
  intros violations found.
  assert (Hcons : consistent (detectNestedClosures maxNestingDepth root 0 initial)).
  { rewrite detect_visits. apply observe_consistent, initial_consistent. }
  assert (Hnd : List.NoDup found) by (apply NoDup_ListNoDup, Hcons).
  assert (Hall : forall m dm, entered root 0 m dm -> maxNestingDepth < dm ->
            In (line_of (node_loc m)) found).
  { intros m dm Hm Hdm. subst found violations. unfold analyze.
    rewrite detect_visits.
    apply (observe_reports maxNestingDepth _ _ _ dm initial_consistent);
      [|exact Hdm].
    apply entered_visits, Hm. }
  assert (Hone : forall m dm, entered root 0 m dm -> maxNestingDepth < dm ->
            count_occ Nat.eq_dec found (line_of (node_loc m)) = 1).
  { intros m dm Hm Hdm. apply NoDup_count_occ'; eauto. }
  split; [exact Hnd|]. split; [exact Hone|]. split.
  - intros i Hi. subst violations. unfold analyze in Hi.
    rewrite detect_visits in Hi. apply observe_origin in Hi.
    destruct Hi as [[]|[Hin Hd]]. split; [exact Hd|].
    apply visits_entered in Hin. destruct Hin as (m & Hm & Hl). eauto.
  - intros k a rest d Hk Hlen Hchain Ha.
    assert (Hdeep : forall b, In b (skipn maxNestingDepth (a :: rest)) ->
              exists db, entered root 0 b db /\ maxNestingDepth < db).
    { intros b Hb. apply skipn_nth_error in Hb. destruct Hb as (i & Hi & Hnth).
      destruct (chain_entered _ Hchain root 0 a rest d eq_refl Ha i b Hnth)
        as (db & Hb1 & Hb2).
      exists db. split; [exact Hb1|].
      assert (1 <= d); [|lia]. apply (entered_function _ _ _ _ Ha).
      now rewrite (chain_head_arrow _ _ Hchain). }
    split.
    + destruct (skipn maxNestingDepth (a :: rest)) as [|b bs] eqn:Hskip.
      * apply (f_equal (@length node)) in Hskip.
        rewrite length_skipn, Hlen in Hskip. cbn in Hskip. lia.
      * destruct (Hdeep b) as (db & Hb1 & Hb2); [now left|].
        pose proof (Hall b db Hb1 Hb2) as Hin. subst found.
        intros E. rewrite E in Hin. destruct Hin.
    + intros b Hb. destruct (Hdeep b Hb) as (db & Hb1 & Hb2). eauto.
Qed.

Lemma one_violation_per_line_witness :
  analyze 3 arrow_callbacks4 <> []
  /\ count_occ Nat.eq_dec (map line (analyze 3 arrow_callbacks4)) 4 = 1.
Proof.
  assert (Hbody : forall l statements,
            descends (callback l statements) (block l statements)).
  { intros l statements. now apply descends_body. }
  assert (Hstatement : forall l s statements,
            descends (block l (s :: statements)) s).
  { intros l s statements.
    apply (descends_body_element _ _ (s :: statements)); [reflexivity|now left]. }
  assert (Hpass : forall l statements,
            reaches (pass l (callback l statements)) (callback l statements)).
  { intros l statements. eapply reaches_below.
    - apply (descends_property _ _ "expression"%string);
        [now left|reflexivity|reflexivity].
    - apply reaches_child.
      apply (descends_argument _ _ [callback l statements]);
        [reflexivity|reflexivity|now left|reflexivity]. }
  assert (Hinside : forall l l' statements,
            reaches (callback l [pass l' (callback l' statements)])
                    (callback l' statements)).
  { intros l l' statements.
    eapply reaches_below; [apply Hbody|].
    eapply reaches_below; [apply Hstatement|]. apply Hpass. }
  assert (Ha : entered arrow_callbacks4 0 callback1 1).
  { apply (entered_below _ _ (pass 1 callback1)).
    - apply (descends_body_element _ _ [pass 1 callback1]);
        [reflexivity|now left].
    - apply (entered_below _ _ (call 1 "f" [callback1])).
      + apply (descends_property _ _ "expression"%string);
          [now left|reflexivity|reflexivity].
      + apply (entered_below _ _ callback1).
        * apply (descends_argument _ _ [callback1]);
            [reflexivity|reflexivity|now left|reflexivity].
        * apply (entered_here callback1 0). }
  assert (Hc : chain [callback1; callback2; callback3; callback4]).
  { repeat (apply chain_next; [reflexivity|apply Hinside|]).
    apply chain_last. reflexivity. }
  destruct (one_violation_per_line 3 arrow_callbacks4)
    as (_ & _ & _ & Hchain).
  destruct (Hchain 1 callback1 [callback2; callback3; callback4] 1
              (le_n 1) eq_refl Hc Ha) as (Hne & Hone).
  split; [exact Hne|].
  apply (Hone callback4). cbn. now left.
Defined.

(** C4.  The violations do not depend on what the traversal never looks
    into: the analyzer gives the same list on the tree from which the
    arguments of nodes other than calls, the call arguments that are not
    function expressions or arrow functions, and, outside of [body], the
    arrays and the objects without a type tag have been removed.  So a
    tree whose nesting, once these are removed, stays within the
    threshold has no violation, however deep the functions nest inside
    the removed parts; arrow functions bound by [const] declarations one
    inside the other are of this kind at every depth. *)
Theorem untraversed_nesting_not_reported (maxNestingDepth : nat) (root : node) :
  analyze maxNestingDepth root = analyze maxNestingDepth (prune root)
  /\ (nesting (prune root) <= maxNestingDepth ->
      analyze maxNestingDepth root = [])
  /\ (forall n, nesting (const_nest n) = n
                /\ analyze maxNestingDepth (const_nest n) = []).
Proof.
  assert (Hquiet : nesting (prune root) <= maxNestingDepth ->
                   analyze maxNestingDepth root = []).
  { intros Hn. rewrite <- analyze_prune. now apply nesting_quiet. }
  repeat split.
  - symmetry. apply analyze_prune.
  - exact Hquiet.
  - unfold const_nest, program. cbn [nesting nesting_value map list_max foldr].
    assert (H : forall l, list_max (map nesting (const_arrows n l)) = n).
    { induction n as [|n IH]; intros l; [reflexivity|].
      cbn. rewrite (IH (S l)). lia. }
    rewrite H. cbn; lia.
  - rewrite <- analyze_prune. apply nesting_quiet.
    destruct n; cbn; lia.
Qed.

Lemma untraversed_nesting_not_reported_witness :
  nesting (const_nest 6) = 6 /\ analyze 3 (const_nest 6) = [].
Proof.
  split; [reflexivity|].
  destruct (untraversed_nesting_not_reported 3 (const_nest 6)) as (_ & H & _).
  apply H. vm_compute. lia.
Defined.
End NestingProperties.

(** ** The distance matrix *)

Section Matrix.
Import Duplicate Distance.

Lemma foldl_seq_invariant {A : Type} (P : nat -> A -> Prop)
    (f : A -> nat -> A) n : forall a x,
  P a x ->
  (forall k y, a <= k < a + n -> P k y -> P (S k) (f y k)) ->
  P (a + n) (foldl f x (seq a n)).
Proof.
  induction n as [|n IH]; intros a x Hx Hstep.
  - now rewrite Nat.add_0_r.
  - cbn [seq foldl]. replace (a + S n) with (S a + n) by lia.
    apply IH.
    + apply Hstep; [lia|exact Hx].
    + intros k y Hk. apply Hstep. lia.
Qed.

Lemma cell_set_cell m j i v j' i' :
  (exists row, m !! j = Some row /\ i < length row) ->
  cell (set_cell m j i v) j' i'
  = if decide (j = j' /\ i = i') then v else cell m j' i'.
Proof.
  intros (row & Hrow & Hi). unfold cell, set_cell.
  rewrite list_lookup_alter. destruct (decide (j = j')) as [<-|Hj].
  - rewrite Hrow. cbn. rewrite list_lookup_insert.
    destruct (decide (i = i')) as [<-|Hne].
    + rewrite !decide_True by auto. reflexivity.
    + rewrite !decide_False by tauto. reflexivity.
  - rewrite decide_False by tauto. reflexivity.
Qed.

Variables str1 str2 : jsstring.

Lemma well_sized_new :
  well_sized str1 str2 (new_matrix (length str2 + 1) (length str1 + 1)).
Proof using Type.
  unfold new_matrix. split; [apply length_replicate|].
  intros j row Hrow. apply lookup_replicate in Hrow as [-> _].
  apply length_replicate.
Qed.

Lemma well_sized_row m j :
  well_sized str1 str2 m -> j <= length str2 ->
  exists row, m !! j = Some row /\ length row = length str1 + 1.
Proof using Type.
  intros [Hlen Hrows] Hj.
  destruct (m !! j) as [row|] eqn:Hrow.
  - exists row. split; [reflexivity|]. eapply Hrows, Hrow.
  - apply lookup_ge_None in Hrow. lia.
Qed.

Lemma well_sized_set m j i v :
  well_sized str1 str2 m -> well_sized str1 str2 (set_cell m j i v).
Proof using Type.
  intros [Hlen Hrows]. unfold set_cell. split; [now rewrite length_alter|].
  intros j' row. rewrite list_lookup_alter.
  destruct (decide (j = j')) as [<-|_]; [|apply Hrows].
  destruct (m !! j) as [r|] eqn:Hr; [|discriminate]. cbn.
  intros [= <-]. rewrite length_insert. eapply Hrows, Hr.
Qed.

(** Assigning the value of the recurrence to one more cell. *)
Lemma known_set (K K' : nat -> nat -> Prop) m j0 i0 v :
  known str1 str2 K m ->
  j0 <= length str2 -> i0 <= length str1 ->
  v = table str1 str2 j0 i0 ->
  (forall j i, K' j i -> K j i \/ (j = j0 /\ i = i0)) ->
  known str1 str2 K' (set_cell m j0 i0 v).
Proof using Type.
  intros [Hsize Hcells] Hj0 Hi0 -> Hext. split; [now apply well_sized_set|].
  intros j i Hj Hi HK. rewrite cell_set_cell.
  - destruct (decide (j0 = j /\ i0 = i)) as [[<- <-]|Hne]; [reflexivity|].
    apply Hcells; auto. destruct (Hext _ _ HK) as [?|[-> ->]]; tauto.
  - destruct (well_sized_row m j0 Hsize Hj0) as (row & Hrow & Hlen).
    exists row. split; [exact Hrow|lia].
Qed.

Lemma known_weaken (K K' : nat -> nat -> Prop) m :
  known str1 str2 K m ->
  (forall j i, j <= length str2 -> i <= length str1 -> K' j i -> K j i) ->
  known str1 str2 K' m.
Proof using Type.
  intros [Hsize Hcells] Himp. split; [exact Hsize|]. auto.
Qed.

Lemma table_column0 j : table str1 str2 j 0 = j.
Proof using Type. destruct j; reflexivity. Qed.

(** The function returns the last entry of the recurrence. *)
Lemma levenshteinDistance_table :
  levenshteinDistance str1 str2
  = table str1 str2 (length str2) (length str1).
Proof using Type.
  unfold levenshteinDistance.
  set (m0 := new_matrix _ _).
  set (m1 := foldl (fun matrix i => set_cell matrix 0 i i) m0 _).
  set (m2 := foldl (fun matrix j => set_cell matrix j 0 j) m1 _).
  set (m3 := foldl _ m2 _).
  assert (H1 : known str1 str2 (fun j i => j = 0 /\ i < 0 + (length str1 + 1)) m1).
  { subst m1.
    apply (foldl_seq_invariant
             (fun k m => known str1 str2 (fun j i => j = 0 /\ i < k) m)).
    - split; [apply well_sized_new|]. intros j i _ _ [_ Hi]. lia.
    - intros k m Hk Hm. eapply known_set; [exact Hm|lia|lia|reflexivity|].
      intros j i [-> Hi]. destruct (decide (i = k)); [right|left]; split; auto; lia. }
  assert (H2 : known str1 str2
                 (fun j i => j = 0 \/ (i = 0 /\ j < 0 + (length str2 + 1))) m2).
  { subst m2.
    apply (foldl_seq_invariant
             (fun k m => known str1 str2
                           (fun j i => j = 0 \/ (i = 0 /\ j < k)) m)).
    - eapply known_weaken; [exact H1|]. intros j i ? ? [Hj|[Hi Hj]]; lia.
    - intros k m Hk Hm. eapply known_set; [exact Hm|lia|lia| |].
      + now rewrite table_column0.
      + intros j i [Hj|[-> Hj]]; [left; now left|].
        destruct (decide (j = k)); [right|left; right]; split; auto; lia. }
  assert (H3 : known str1 str2
                 (fun j i => j = 0 \/ i = 0 \/ j < 1 + length str2) m3).
  { subst m3.
    apply (foldl_seq_invariant
             (fun J m => known str1 str2
                           (fun j i => j = 0 \/ i = 0 \/ j < J) m)).
    - eapply known_weaken; [exact H2|]. intros j i ? ? [Hj|[Hi|Hj]]; lia.
    - intros J m HJ Hm.
      eapply known_weaken.
      + apply (foldl_seq_invariant
                 (fun I m => known str1 str2
                    (fun j i => j = 0 \/ i = 0 \/ j < J \/ (j = J /\ i < I)) m)
                 _ (length str1) 1 m).
        * cbn beta. eapply known_weaken; [exact Hm|]. cbn beta. intros j i ? ?. lia.
        * cbn beta. intros I m' HI [Hsize Hcells].
          eapply known_set; [split; [exact Hsize|exact Hcells]|lia|lia| |].
          -- rewrite !Hcells by lia.
             destruct J as [|J']; [lia|]. destruct I as [|I']; [lia|].
             cbn [Nat.sub]. rewrite !Nat.sub_0_r. reflexivity.
          -- intros j i Hji.
             destruct (decide (j = J /\ i = I)); [now right|left]. lia.
      + cbn beta. intros j i Hj Hi Hor. clear - Hj Hi Hor. lia. }
  destruct H3 as [_ Hcells]. apply Hcells; lia.
Qed.
End Matrix.

(** ** The recurrence: symmetry and bounds *)

Section Table.
Import Duplicate Distance.

Lemma indicator_sym str1 str2 i j :
  indicator str1 str2 i j = indicator str2 str1 j i.
Proof.
  unfold indicator.
  destruct (decide (str1 !! (i - 1) = str2 !! (j - 1))) as [E|E].
  - rewrite !bool_decide_eq_true_2; auto.
  - rewrite !bool_decide_eq_false_2; auto.
Qed.

Lemma indicator_le_1 str1 str2 i j : indicator str1 str2 i j <= 1.
Proof. unfold indicator. destruct (bool_decide _); lia. Qed.

Lemma table_step str1 str2 j i :
  table str1 str2 (S j) (S i)
  = Nat.min (Nat.min (table str1 str2 (S j) i + 1)
                     (table str1 str2 j (S i) + 1))
            (table str1 str2 j i + indicator str1 str2 (S i) (S j)).
Proof. reflexivity. Qed.

Lemma table_sym str1 str2 : forall j i,
  table str1 str2 j i = table str2 str1 i j.
Proof.
  induction j as [|j IHj]; intros i.
  - now rewrite table_column0.
  - induction i as [|i IHi]; [reflexivity|].
    rewrite !table_step, IHi, !IHj, (indicator_sym str1 str2). lia.
Qed.

Lemma table_le_max str1 str2 : forall j i,
  table str1 str2 j i <= Nat.max i j.
Proof.
  induction j as [|j IHj]; intros i; [cbn; lia|].
  induction i as [|i IHi]; [cbn; lia|].
  rewrite table_step.
  pose proof (IHj i). pose proof (indicator_le_1 str1 str2 (S i) (S j)). lia.
Qed.

Lemma levenshteinDistance_sym str1 str2 :
  length str1 = length str2 ->
  levenshteinDistance str1 str2 = levenshteinDistance str2 str1.
Proof.
  intros E. rewrite !levenshteinDistance_table, table_sym. now rewrite E.
Qed.

Lemma levenshteinDistance_le_max str1 str2 :
  levenshteinDistance str1 str2 <= Nat.max (length str1) (length str2).
Proof. rewrite levenshteinDistance_table. apply table_le_max. Qed.

Lemma str_eqb_sym a b : str_eqb a b = str_eqb b a.
Proof.
  unfold str_eqb. destruct (decide (a = b)) as [E|E].
  - rewrite !bool_decide_eq_true_2; auto.
  - rewrite !bool_decide_eq_false_2; auto.
Qed.

(** A quotient of an integer between 0 and a positive divisor by that
    divisor is a rational between 0 and 1. *)
Lemma divide_unit (a b : Z) :
  (0 <= a <= b)%Z -> (0 < b)%Z ->
  divide a b = Num (inject_Z a / inject_Z b)
  /\ (0 <= inject_Z a / inject_Z b)%Q /\ (inject_Z a / inject_Z b <= 1)%Q.
Proof.
  intros Ha Hb. unfold divide.
  destruct (Z.eqb_spec b 0) as [->|_]; [lia|]. split; [reflexivity|].
  assert (Hb' : (inject_Z 0 < inject_Z b)%Q) by (rewrite <- Zlt_Qlt; exact Hb).
  split.
  - apply Qle_shift_div_l; [exact Hb'|]. rewrite Qmult_0_l.
    change 0%Q with (inject_Z 0). rewrite <- Zle_Qle. lia.
  - apply Qle_shift_div_r; [exact Hb'|]. rewrite Qmult_1_l.
    rewrite <- Zle_Qle. lia.
Qed.
End Table.

(** ** Properties of the similarity score *)

Section Similarity.
Import Duplicate Distance.

(** C8.  The similarity score of [analyzeSimilarity] does not depend on
    the order of the two texts. *)
Theorem similarity_symmetric (A B : jsstring) :
  similarity (analyzeSimilarity A B) = similarity (analyzeSimilarity B A).
Proof.
  unfold analyzeSimilarity. rewrite (str_eqb_sym B A).
  destruct (str_eqb A B); [reflexivity|].
  rewrite (orb_comm (length B <? MIN_DUPLICATE_LENGTH)).
  destruct (_ || _); [reflexivity|]. cbn [similarity].
  destruct (Nat.ltb_spec (length B) (length A)) as [Hlt|Hge];
    destruct (Nat.ltb_spec (length A) (length B)) as [Hlt'|Hge'];
    try lia; try reflexivity.
  assert (E : length A = length B) by lia.
  rewrite (levenshteinDistance_sym B A), E; auto.
Qed.

(** C10.  For two texts of at least [minDuplicateLength] characters the
    divisor of the score, the length of the longer text, is not zero, and
    the score is a rational between 0 and 1: 1 for identical texts, and
    [(maxLen - editDistance) / maxLen] otherwise. *)
Theorem similarity_in_unit_interval (A B : jsstring) :
  MIN_DUPLICATE_LENGTH <= length A ->
  MIN_DUPLICATE_LENGTH <= length B ->
  let longer := if length B <? length A then A else B in
  let shorter := if length B <? length A then B else A in
  let maxLen := Z.of_nat (Nat.max (length A) (length B)) in
  maxLen <> 0%Z
  /\ Z.of_nat (length longer) = maxLen
  /\ exists q : Q,
       similarity (analyzeSimilarity A B) = Num q
       /\ (0 <= q)%Q /\ (q <= 1)%Q
       /\ (A <> B ->
           q = (inject_Z (maxLen - Z.of_nat (levenshteinDistance longer shorter))
                / inject_Z maxLen)%Q).
Proof.
  intros HA HB longer shorter maxLen. unfold MIN_DUPLICATE_LENGTH in HA, HB.
  assert (Hlen : length longer = Nat.max (length A) (length B)).
  { subst longer. destruct (Nat.ltb_spec (length B) (length A)); lia. }
  split; [subst maxLen; lia|]. split; [subst maxLen; now rewrite Hlen|].
  unfold analyzeSimilarity, str_eqb.
  destruct (decide (A = B)) as [E|E].
  - rewrite bool_decide_eq_true_2 by exact E. exists 1%Q. cbn [similarity].
    repeat split; try easy.
  - rewrite bool_decide_eq_false_2 by exact E.
    destruct (Nat.ltb_spec (length A) MIN_DUPLICATE_LENGTH) as [H|_];
      [unfold MIN_DUPLICATE_LENGTH in H; lia|].
    destruct (Nat.ltb_spec (length B) MIN_DUPLICATE_LENGTH) as [H|_];
      [unfold MIN_DUPLICATE_LENGTH in H; lia|].
    cbn [orb similarity]. fold longer shorter.
    pose proof (levenshteinDistance_le_max longer shorter) as Hd.
    assert (Hs : length shorter <= length longer).
    { subst longer shorter. destruct (Nat.ltb_spec (length B) (length A)); lia. }
    destruct (divide_unit
                (Z.of_nat (length longer)
                 - Z.of_nat (levenshteinDistance longer shorter))
                (Z.of_nat (length longer))) as (Hq & Hq0 & Hq1); [lia|lia|].
    rewrite Hq. eexists. split; [reflexivity|].
    split; [exact Hq0|]. split; [exact Hq1|].
    intros _. subst maxLen. now rewrite Hlen.
Qed.

Lemma similarity_in_unit_interval_witness :
  exists q : Q,
    similarity (analyzeSimilarity (js "function f() {}") (js "function g() { }"))
    = Num q /\ (0 <= q)%Q /\ (q <= 1)%Q.
Proof.
  destruct (similarity_in_unit_interval
              (js "function f() {}") (js "function g() { }"))
    as (_ & _ & q & Hq & Hq0 & Hq1 & _).
  - vm_compute. lia.
  - vm_compute. lia.
  - exists q. auto.
Defined.
End Similarity.

(** ** Block extraction *)

Section Blocks.
Import Duplicate Extraction.
Variable generate : node -> jsstring.

Lemma enter_recorded codeBlocks n :
  enter generate codeBlocks n
  = match recorded generate n with
    | Some (l, b) => map_set l b codeBlocks
    | None => codeBlocks
    end.
Proof using Type.
  unfold enter, recorded. destruct (is_block (node_type n)); [|reflexivity].
  cbn [andb]. now destruct (MIN_DUPLICATE_LENGTH <=? length (generate n)).
Qed.

Lemma map_get_set l b l' (m : blocks) :
  map_get l' (map_set l b m) = if l =? l' then Some b else map_get l' m.
Proof using Type.
  induction m as [|[k v] m IH]; cbn [map_set map_get].
  - reflexivity.
  - destruct (Nat.eqb_spec k l) as [->|Hkl]; cbn [map_get].
    + now destruct (l =? l').
    + destruct (Nat.eqb_spec k l') as [->|Hkl'].
      * destruct (Nat.eqb_spec l l'); [lia|reflexivity].
      * exact IH.
Qed.

Lemma map_set_In l b (m : blocks) e :
  In e (map_set l b m) -> e = (l, b) \/ In e m.
Proof using Type.
  induction m as [|[k v] m IH]; cbn [map_set].
  - intros [<-|[]]. now left.
  - destruct (k =? l).
    + intros [<-|H]; [now left|right; now right].
    + intros [<-|H]; [right; now left|].
      destruct (IH H); [now left|right; now right].
Qed.

Lemma map_set_keys l b (m : blocks) :
  NoDup (map fst m) -> NoDup (map fst (map_set l b m))
  /\ forall k, In k (map fst (map_set l b m)) <-> k = l \/ In k (map fst m).
Proof using Type.
  induction m as [|[k v] m IH]; cbn [map_set map fst].
  - intros _. split; [apply NoDup_singleton|]. intros k. cbn. intuition.
  - intros Hnd. apply NoDup_cons in Hnd as [Hk Hnd].
    destruct (Nat.eqb_spec k l) as [->|Hkl]; cbn [map fst].
    + split; [now apply NoDup_cons|]. intros k. cbn. intuition.
    + destruct (IH Hnd) as [Hnd' Hkeys]. split.
      * apply NoDup_cons. split; [|exact Hnd'].
        rewrite list_elem_of_In, Hkeys. rewrite list_elem_of_In in Hk.
        intros [->|H]; auto.
      * intros k'. cbn [In]. rewrite Hkeys. intuition.
Qed.

Lemma extract_snoc entered n :
  extract generate (entered ++ [n])
  = enter generate (extract generate entered) n.
Proof using Type. unfold extract. now rewrite foldl_app. Qed.

Lemma extract_keys entered : NoDup (map fst (extract generate entered)).
Proof using Type.
  induction entered as [|n entered IH] using rev_ind; [constructor|].
  rewrite extract_snoc, enter_recorded.
  destruct (recorded generate n) as [[l b]|]; [|exact IH].
  now apply map_set_keys.
Qed.

Lemma extract_get entered location :
  map_get location (extract generate entered)
  = last_recorded generate location entered.
Proof using Type.
  unfold last_recorded.
  induction entered as [|n entered IH] using rev_ind; [reflexivity|].
  rewrite extract_snoc, enter_recorded, omap_app. cbn [omap list_omap].
  destruct (recorded generate n) as [[l b]|].
  - rewrite map_get_set. destruct (l =? location); cbn iota.
    + now rewrite last_snoc.
    + now rewrite app_nil_r.
  - cbn iota. now rewrite app_nil_r.
Qed.

(** Every entry of [codeBlocks] was recorded for an entered node. *)
Lemma extract_In entered e :
  In e (extract generate entered) ->
  exists n, In n entered /\ recorded generate n = Some e.
Proof using Type.
  induction entered as [|n entered IH] using rev_ind; [intros []|].
  rewrite extract_snoc, enter_recorded.
  destruct (recorded generate n) as [[l b]|] eqn:Hrec.
  - intros H. apply map_set_In in H. destruct H as [->|H].
    + exists n. split; [apply in_app_iff; right; now left|exact Hrec].
    + destruct (IH H) as (n' & Hn' & Hrec'). exists n'.
      split; [apply in_app_iff; now left|exact Hrec'].
  - intros H. destruct (IH H) as (n' & Hn' & Hrec'). exists n'.
    split; [apply in_app_iff; now left|exact Hrec'].
Qed.

Lemma recorded_length n l b :
  recorded generate n = Some (l, b) ->
  code b = generate n /\ MIN_DUPLICATE_LENGTH <= length (code b).
Proof using Type.
  unfold recorded. destruct (is_block (node_type n)); [|discriminate].
  cbn [andb].
  destruct (Nat.leb_spec MIN_DUPLICATE_LENGTH (length (generate n)));
    [|discriminate].
  intros [= <- <-]. cbn [code]. auto.
Qed.
End Blocks.

(** ** Pair comparison *)

Section Pairs.
Import Duplicate Extraction.

Lemma foldl_invariant_In {A B : Type} (P : A -> Prop) (f : A -> B -> A) xs :
  (forall a x, In x xs -> P a -> P (f a x)) ->
  forall a, P a -> P (foldl f a xs).
Proof.
  induction xs as [|x xs IH]; intros Hstep a Ha; [exact Ha|].
  cbn [foldl]. apply IH.
  - intros a' x' Hx'. apply Hstep. now right.
  - apply Hstep; [now left|exact Ha].
Qed.

Lemma compare_pair_origin st e1 e2 i :
  In i (snd (compare_pair st e1 e2)) ->
  In i (snd st) \/ (fst e1 <> fst e2 /\ issue_of e1 e2 i).
Proof.
  destruct st as [processed issues], e1 as [loc1 b1], e2 as [loc2 b2].
  unfold compare_pair. destruct (Nat.eqb_spec loc1 loc2) as [|Hne]; cbn [negb].
  { now left. }
  destruct (bool_decide _); [now left|].
  destruct (at_least _ _); [|now left].
  cbn [snd]. rewrite in_app_iff. intros [H|[<-|[]]]; [now left|right].
  split; [exact Hne|reflexivity].
Qed.

(** Every issue of the check comes from two entries of [codeBlocks] with
    different keys. *)
Lemma compare_blocks_origin (codeBlocks : blocks) i :
  In i (compare_blocks codeBlocks) ->
  exists e1 e2, In e1 codeBlocks /\ In e2 codeBlocks
                /\ fst e1 <> fst e2 /\ issue_of e1 e2 i.
Proof.
  unfold compare_blocks.
  set (P := fun st : gset jsstring * list issue =>
              forall i, In i (snd st) ->
                exists e1 e2, In e1 codeBlocks /\ In e2 codeBlocks
                              /\ fst e1 <> fst e2 /\ issue_of e1 e2 i).
  intros Hi. revert i Hi. change (P (foldl
    (fun st e1 => foldl (fun st e2 => compare_pair st e1 e2) st codeBlocks)
    (∅, []) codeBlocks)).
  apply foldl_invariant_In; [|intros i []].
  intros st e1 He1 Hst. apply foldl_invariant_In; [|exact Hst].
  intros st' e2 He2 Hst' i Hi.
  apply compare_pair_origin in Hi. destruct Hi as [Hi|[Hne Hi]]; [auto|].
  exists e1, e2. auto.
Qed.
End Pairs.

(** ** Properties of the duplicate check *)

Section DuplicateProperties.
Import Duplicate Extraction Units.

(** C9.  The keys of [codeBlocks] are pairwise distinct, the block held
    for a line is the one of the last entered node recorded for that
    line, and so, of two recorded nodes that start on the same line, the
    block of the one entered later is the one that stays. *)
Theorem later_block_overwrites (generate : node -> jsstring)
    (entered : list node) :
  List.NoDup (map fst (extract generate entered))
  /\ (forall location,
        map_get location (extract generate entered)
        = last_recorded generate location entered)
  /\ (forall before n1 between n2 l b1 b2,
        entered = before ++ [n1] ++ between ++ [n2] ->
        recorded generate n1 = Some (l, b1) ->
        recorded generate n2 = Some (l, b2) ->
        map_get l (extract generate entered) = Some b2).
Proof.
  split; [apply NoDup_ListNoDup, extract_keys|].
  split; [intros location; apply extract_get|].
  intros before n1 between n2 l b1 b2 -> _ H2.
  rewrite extract_get. unfold last_recorded.
  rewrite !app_assoc, omap_app. cbn [omap list_omap]. rewrite H2, Nat.eqb_refl.
  apply last_snoc.
Qed.

Lemma later_block_overwrites_witness :
  map_get 3 (extract SameLine.print [SameLine.method; SameLine.inner_arrow])
  = Some (Block (js "() => 1") "ArrowFunctionExpression" (js "anonymous")).
Proof.
  destruct (later_block_overwrites SameLine.print
              [SameLine.method; SameLine.inner_arrow]) as (_ & _ & H).
  apply (H [] SameLine.method [] SameLine.inner_arrow 3
           (Block (text ["handler() {"; "  return () => 1;"; "}"]%string)
                  "ClassMethod" (js "anonymous"))); reflexivity.
Defined.

(** C7.  For every source unit, every issue of the Duplicate Code check
    is made of two blocks recorded for entered nodes whose generated code
    has at least [minDuplicateLength] characters: a block with a shorter
    text appears in no issue.  Such a block is dropped at extraction time:
    the callback leaves the map unchanged on it and the map never holds
    one.  [analyzeSimilarity] is local to the check, which calls it on the
    texts of two entries of the map only, so it is never called on a
    shorter text; and its guard gives a text shorter than
    [minDuplicateLength] the score 0 and no cluster against every other
    text (the test for identical strings comes first and gives 1, on a
    call that can then not occur in the check). *)
Theorem short_blocks_never_matched
    (parse : jsstring -> completion file) (generate : node -> jsstring)
    (traverse : file -> list node) (lines : list jsstring) :
  (forall issues i,
      ends (check parse generate traverse lines) = Normal issues ->
      In i issues ->
      exists ast n1 n2 e1 e2,
        parse (join [LF] lines) = Normal ast
        /\ In n1 (traverse ast) /\ In n2 (traverse ast)
        /\ recorded generate n1 = Some e1
        /\ recorded generate n2 = Some e2
        /\ issue_of e1 e2 i
        /\ MIN_DUPLICATE_LENGTH <= length (generate n1)
        /\ MIN_DUPLICATE_LENGTH <= length (generate n2))
  /\ (forall ast e1 e2,
      parse (join [LF] lines) = Normal ast ->
      In e1 (extract generate (traverse ast)) ->
      In e2 (extract generate (traverse ast)) ->
      MIN_DUPLICATE_LENGTH <= length (code (snd e1))
      /\ (length (code (snd e1)) <? MIN_DUPLICATE_LENGTH)
         || (length (code (snd e2)) <? MIN_DUPLICATE_LENGTH) = false)
  /\ (forall n codeBlocks,
      length (generate n) < MIN_DUPLICATE_LENGTH ->
      enter generate codeBlocks n = codeBlocks)
  /\ (forall A B : jsstring,
      length A < MIN_DUPLICATE_LENGTH \/ length B < MIN_DUPLICATE_LENGTH ->
      analyzeSimilarity A B
      = if str_eqb A B then Analysis (Num 1) [[Whole A; Whole B]]
        else Analysis (Num 0) []).
Proof.
  assert (Hlong : forall entered e, In e (extract generate entered) ->
            MIN_DUPLICATE_LENGTH <= length (code (snd e))).
  { intros entered [l b] He. apply extract_In in He.
    destruct He as (n & _ & Hrec). now apply recorded_length in Hrec. }
  split; [|split; [|split]].
  - intros issues i Hends Hi. unfold check in Hends.
    destruct (parse (join [LF] lines)) as [ast|message] eqn:Hparse;
      cbn [ends] in Hends; injection Hends as <-; [|destruct Hi].
    apply compare_blocks_origin in Hi.
    destruct Hi as ([l1 b1] & [l2 b2] & H1 & H2 & _ & Hi).
    apply extract_In in H1. destruct H1 as (n1 & Hn1 & Hr1).
    apply extract_In in H2. destruct H2 as (n2 & Hn2 & Hr2).
    destruct (recorded_length _ _ _ _ Hr1) as [Hc1 Hlen1].
    destruct (recorded_length _ _ _ _ Hr2) as [Hc2 Hlen2].
    exists ast, n1, n2, (l1, b1), (l2, b2).
    rewrite <- Hc1, <- Hc2. repeat split; auto.
  - intros ast e1 e2 _ H1 H2.
    apply Hlong in H1 as Hlen1. apply Hlong in H2 as Hlen2.
    split; [exact Hlen1|].
    destruct (Nat.ltb_spec (length (code (snd e1))) MIN_DUPLICATE_LENGTH);
      destruct (Nat.ltb_spec (length (code (snd e2))) MIN_DUPLICATE_LENGTH);
      try reflexivity; lia.
  - intros n codeBlocks Hshort. unfold enter.
    destruct (is_block (node_type n)); [|reflexivity].
    destruct (Nat.leb_spec MIN_DUPLICATE_LENGTH (length (generate n)));
      [lia|reflexivity].
  - intros A B Hshort. unfold analyzeSimilarity.
    destruct (str_eqb A B); [reflexivity|].
    destruct (Nat.ltb_spec (length A) MIN_DUPLICATE_LENGTH);
      destruct (Nat.ltb_spec (length B) MIN_DUPLICATE_LENGTH);
      try reflexivity; lia.
Qed.

Lemma short_blocks_never_matched_witness :
  MIN_DUPLICATE_LENGTH <= length sum_arrow_code
  /\ exists n1 n2,
       In n1 (preorder (program three_arrows))
       /\ In n2 (preorder (program three_arrows))
       /\ line_of (node_loc n1) = 1 /\ line_of (node_loc n2) = 8
       /\ MIN_DUPLICATE_LENGTH <= length (print_sum_arrow n1)
       /\ MIN_DUPLICATE_LENGTH <= length (print_sum_arrow n2).
Proof.
  pose (arrow := fun l : nat =>
          (l, Block sum_arrow_code "ArrowFunctionExpression" (js "anonymous"))).
  destruct (short_blocks_never_matched (fun _ => Normal three_arrows)
              print_sum_arrow (fun f => preorder (program f))
              three_arrows_source) as (Hissue & Hmap & _).
  split.
  - apply (Hmap three_arrows (arrow 1) (arrow 8)); [reflexivity| |].
    + vm_compute. left. reflexivity.
    + vm_compute. right. left. reflexivity.
  - destruct (Hissue
                (compare_blocks
                   (extract print_sum_arrow (preorder (program three_arrows))))
                (Pairs.pair_issue (arrow 1) (arrow 8)) eq_refl)
      as (ast & n1 & n2 & [l1 b1] & [l2 b2]
          & Hast & Hn1 & Hn2 & Hr1 & Hr2 & Hi & Hl1 & Hl2).
    { vm_compute. left. reflexivity. }
    injection Hast as <-. exists n1, n2.
    assert (E1 : l1 = line_of (node_loc n1)).
    { unfold recorded in Hr1. destruct (_ && _); [|discriminate].
      now injection Hr1. }
    assert (E2 : l2 = line_of (node_loc n2)).
    { unfold recorded in Hr2. destruct (_ && _); [|discriminate].
      now injection Hr2. }
    unfold issue_of in Hi.
    pose proof (f_equal (fun i => startLine (block1 i)) Hi) as H1.
    pose proof (f_equal (fun i => startLine (block2 i)) Hi) as H2.
    cbn in H1, H2. repeat split; try assumption; congruence.
Defined.

End DuplicateProperties.

(** ** Parse failures *)

Section ParseFailure.
Import Units.

(** C6.  When the parser throws on the text of a unit, each of the two
    checks ends normally, returns the empty list of issues, and has
    written the message of the error with [console.error]. *)
Theorem parse_failure_yields_no_issue
    (parse : jsstring -> completion file) (generate : node -> jsstring)
    (traverse : file -> list node) (lines : list jsstring)
    (message : jsstring) :
  parse (join [LF] lines) = Throw message ->
  Nesting.check parse lines = Run (Normal []) [parse_error_line message]
  /\ Duplicate.check parse generate traverse lines
     = Run (Normal []) [parse_error_line message].
Proof.
  intros Hparse. unfold Nesting.check, Duplicate.check.
  now rewrite Hparse.
Qed.

Lemma parse_failure_yields_no_issue_witness :
  Nesting.check failing_parse [js "let = ;"]
  = Run (Normal []) [js "Error parsing file: Unexpected token (1:4)"]
  /\ Duplicate.check failing_parse print_sum_arrow
       (fun f => preorder (program f)) [js "let = ;"]
     = Run (Normal []) [js "Error parsing file: Unexpected token (1:4)"].
Proof.
  apply (parse_failure_yields_no_issue failing_parse print_sum_arrow
           (fun f => preorder (program f)) [js "let = ;"]
           (js "Unexpected token (1:4)")).
  reflexivity.
Defined.
End ParseFailure.

(** ** The line clusters of the duplicate check *)

Section Clusters.
Import Duplicate Units.

(** C1, on a unit with the same 6-line arrow function at lines 1, 8 and
    15.  The check reports the three pairs, each with the score 1 and one
    element in [similarLines]; that element does not hold the lines 1 to
    6 of the two blocks but, for each of the two strings that the
    shortcut for identical texts returns as a match, its first, second
    and third character, which the message prints as line numbers. *)
Theorem identical_blocks_cluster_holds_characters :
  let cluster :=
    LineMapping [JString (js "("); JString (js "(")]
                [JString (js ")"); JString (js ")")]
                [JString (js " "); JString (js " ")] in
  let arrow l := BlockRef l "ArrowFunctionExpression" (js "anonymous") in
  let message :=
    text ["Found 1 similar code segments:"; "- Lines (,( match lines ),):";
          "   "; "   "]%string in
  check (fun _ => Normal three_arrows) print_sum_arrow
        (fun f => preorder (program f)) three_arrows_source
  = Run (Normal [Issue 1 (Num 1) (arrow 1) (arrow 8) [cluster] message;
                 Issue 1 (Num 1) (arrow 1) (arrow 15) [cluster] message;
                 Issue 8 (Num 1) (arrow 8) (arrow 15) [cluster] message]) []
  /\ length (split LF sum_arrow_code) = 6
  /\ block1Lines cluster <> map JNumber (seq 1 6).
Proof.
  split; [vm_compute; reflexivity|].
  split; [vm_compute; reflexivity|].
  cbn. discriminate.
Qed.

(** C5, on two functions that differ by their name.  The last line of
    the first text, a closing brace, equals the last two lines of the
    second, and these two pairs of lines are the last two of the
    comparison; the loop ends with this run in [currentMatch] and never
    pushes it, so the only cluster is the run before it. *)
Theorem final_run_is_dropped :
  let lines1 := split LF guarded_f in
  let lines2 := split LF guarded_h in
  (length lines1 = 5 /\ length lines2 = 5)
  /\ (trim <$> lines1 !! 4) = (trim <$> lines2 !! 3)
  /\ (trim <$> lines1 !! 4) = (trim <$> lines2 !! 4)
  /\ analyzeSimilarity guarded_f guarded_h
     = Analysis (Num (39 # 40))
                [[Triple 4 4 (js "}"); Triple 4 5 (js "}")]].
Proof. vm_compute. repeat split; reflexivity. Qed.
End Clusters.

(** * Further properties *)

(** ** The distance as the least number of edits *)

Section EditDistance.
Import Duplicate Distance Edit.

Lemma edits_keep_snoc x a b n :
  edits a b n -> edits (a ++ [x]) (b ++ [x]) n.
Proof.
  induction 1; cbn [app]; try (constructor; assumption).
  apply edits_keep, edits_nil.
Qed.

Lemma edits_substitute_snoc x y a b n :
  edits a b n -> edits (a ++ [x]) (b ++ [y]) (S n).
Proof.
  induction 1; cbn [app]; try (constructor; assumption).
  apply edits_substitute, edits_nil.
Qed.

Lemma edits_delete_snoc x a b n :
  edits a b n -> edits (a ++ [x]) b (S n).
Proof.
  induction 1; cbn [app]; try (constructor; assumption).
  apply edits_delete, edits_nil.
Qed.

Lemma edits_insert_snoc y a b n :
  edits a b n -> edits a (b ++ [y]) (S n).
Proof.
  induction 1; cbn [app]; try (constructor; assumption).
  apply edits_insert, edits_nil.
Qed.

Lemma edits_rev a b n : edits a b n -> edits (rev a) (rev b) n.
Proof.
  induction 1; cbn [rev].
  - constructor.
  - now apply edits_keep_snoc.
  - now apply edits_substitute_snoc.
  - now apply edits_delete_snoc.
  - now apply edits_insert_snoc.
Qed.

Lemma edits_delete_all a : edits a [] (length a).
Proof. induction a; cbn; constructor; assumption. Qed.

Lemma edits_insert_all b : edits [] b (length b).
Proof. induction b; cbn; constructor; assumption. Qed.

Lemma edits_refl a : edits a a 0.
Proof. induction a; constructor; assumption. Qed.

Lemma edits_sym a b n : edits a b n -> edits b a n.
Proof. induction 1; constructor; assumption. Qed.

Lemma edits_zero a b : edits a b 0 -> a = b.
Proof.
  intros H. remember 0 as n eqn:Hn. induction H; try discriminate.
  - reflexivity.
  - f_equal. auto.
Qed.

Lemma edits_lengths a b n :
  edits a b n -> length a <= length b + n /\ length b <= length a + n.
Proof. induction 1; cbn [length]; lia. Qed.

(** Two scripts in a row are worth one that is not longer than both. *)
Lemma edits_trans a b n :
  edits a b n -> forall c m, edits b c m ->
  exists k, k <= n + m /\ edits a c k.
Proof.
  induction 1 as [|x a b n _ IH|x y a b n _ IH|x a b n _ IH|y a b n _ IH];
    intros c m H2.
  - exists m. split; [lia|exact H2].
  - remember (x :: b) as xb eqn:E. revert E.
    induction H2 as [|x' b' c' m' H2 _|x' z b' c' m' H2 _|x' b' c' m' H2 _
                     |z b' c' m' _ IH2]; intros E; try discriminate.
    + injection E as -> ->. destruct (IH _ _ H2) as (k & Hk & He).
      exists k. split; [lia|now constructor].
    + injection E as -> ->. destruct (IH _ _ H2) as (k & Hk & He).
      exists (S k). split; [lia|now constructor].
    + injection E as -> ->. destruct (IH _ _ H2) as (k & Hk & He).
      exists (S k). split; [lia|now constructor].
    + destruct (IH2 E) as (k & Hk & He).
      exists (S k). split; [lia|now constructor].
  - remember (y :: b) as yb eqn:E. revert E.
    induction H2 as [|x' b' c' m' H2 _|x' z b' c' m' H2 _|x' b' c' m' H2 _
                     |z b' c' m' _ IH2]; intros E; try discriminate.
    + injection E as -> ->. destruct (IH _ _ H2) as (k & Hk & He).
      exists (S k). split; [lia|now constructor].
    + injection E as -> ->. destruct (IH _ _ H2) as (k & Hk & He).
      exists (S k). split; [lia|now constructor].
    + injection E as -> ->. destruct (IH _ _ H2) as (k & Hk & He).
      exists (S k). split; [lia|now constructor].
    + destruct (IH2 E) as (k & Hk & He).
      exists (S k). split; [lia|now constructor].
  - destruct (IH _ _ H2) as (k & Hk & He).
    exists (S k). split; [lia|now constructor].
  - remember (y :: b) as yb eqn:E. revert E.
    induction H2 as [|x' b' c' m' H2 _|x' z b' c' m' H2 _|x' b' c' m' H2 _
                     |z b' c' m' _ IH2]; intros E; try discriminate.
    + injection E as -> ->. destruct (IH _ _ H2) as (k & Hk & He).
      exists (S k). split; [lia|now constructor].
    + injection E as -> ->. destruct (IH _ _ H2) as (k & Hk & He).
      exists (S k). split; [lia|now constructor].
    + injection E as -> ->. destruct (IH _ _ H2) as (k & Hk & He).
      exists k. split; [lia|exact He].
    + destruct (IH2 E) as (k & Hk & He).
      exists (S k). split; [lia|now constructor].
Qed.
End EditDistance.

Section DistanceByPrefixes.
Import Duplicate Distance Edit.

(** The recurrence looks at the strings only up to the indices. *)
Lemma table_ext str1 str1' str2 str2' : forall j i,
  (forall k, k < i -> str1 !! k = str1' !! k) ->
  (forall k, k < j -> str2 !! k = str2' !! k) ->
  table str1 str2 j i = table str1' str2' j i.
Proof.
  induction j as [|j IHj]; intros i H1 H2; [reflexivity|].
  induction i as [|i IHi]; [reflexivity|].
  rewrite !table_step.
  assert (H1' : forall k, k < i -> str1 !! k = str1' !! k)
    by (intros k Hk; apply H1; lia).
  assert (H2' : forall k, k < j -> str2 !! k = str2' !! k)
    by (intros k Hk; apply H2; lia).
  rewrite (IHi H1'), (IHj (S i) H1 H2'), (IHj i H1' H2').
  unfold indicator. cbn [Nat.sub]. rewrite !Nat.sub_0_r.
  now rewrite (H1 i), (H2 j) by lia.
Qed.

Lemma lev_nil_l b : levenshteinDistance [] b = length b.
Proof. rewrite levenshteinDistance_table. apply table_column0. Qed.

Lemma lev_nil_r a : levenshteinDistance a [] = length a.
Proof. now rewrite levenshteinDistance_table. Qed.

Lemma lev_snoc a x b y :
  levenshteinDistance (a ++ [x]) (b ++ [y])
  = Nat.min (Nat.min (levenshteinDistance a (b ++ [y]) + 1)
                     (levenshteinDistance (a ++ [x]) b + 1))
            (levenshteinDistance a b + if decide (x = y) then 0 else 1).
Proof.
  rewrite !levenshteinDistance_table, !length_app. cbn [length].
  replace (length a + 1) with (S (length a)) by lia.
  replace (length b + 1) with (S (length b)) by lia.
  rewrite table_step.
  assert (Ha : forall k, k < length a -> (a ++ [x]) !! k = a !! k)
    by (intros k Hk; now apply lookup_app_l).
  assert (Hb : forall k, k < length b -> (b ++ [y]) !! k = b !! k)
    by (intros k Hk; now apply lookup_app_l).
  rewrite (table_ext (a ++ [x]) a (b ++ [y]) (b ++ [y])
                     (S (length b)) (length a)) by auto.
  rewrite (table_ext (a ++ [x]) (a ++ [x]) (b ++ [y]) b
                     (length b) (S (length a))) by auto.
  rewrite (table_ext (a ++ [x]) a (b ++ [y]) b (length b) (length a)) by auto.
  f_equal. f_equal.
  unfold indicator. cbn [Nat.sub]. rewrite !Nat.sub_0_r.
  rewrite !list_lookup_middle by reflexivity.
  destruct (decide (x = y)) as [->|Hne].
  - now rewrite bool_decide_eq_true_2.
  - rewrite bool_decide_eq_false_2; [reflexivity|congruence].
Qed.

Lemma lev_edits : forall a b, edits a b (levenshteinDistance a b).
Proof.
  induction a as [|x a IHa] using rev_ind; intros b.
  { rewrite lev_nil_l. apply edits_insert_all. }
  induction b as [|y b IHb] using rev_ind.
  { rewrite lev_nil_r. apply edits_delete_all. }
  rewrite lev_snoc.
  destruct (Nat.min_spec
              (Nat.min (levenshteinDistance a (b ++ [y]) + 1)
                       (levenshteinDistance (a ++ [x]) b + 1))
              (levenshteinDistance a b + if decide (x = y) then 0 else 1))
    as [[_ ->]|[_ ->]].
  - destruct (Nat.min_spec (levenshteinDistance a (b ++ [y]) + 1)
                           (levenshteinDistance (a ++ [x]) b + 1))
      as [[_ ->]|[_ ->]]; rewrite Nat.add_1_r.
    + apply edits_delete_snoc, IHa.
    + apply edits_insert_snoc, IHb.
  - destruct (decide (x = y)) as [->|_].
    + rewrite Nat.add_0_r. apply edits_keep_snoc, IHa.
    + rewrite Nat.add_1_r. apply edits_substitute_snoc, IHa.
Qed.

Lemma lev_snoc_l_le a x b :
  levenshteinDistance (a ++ [x]) b <= levenshteinDistance a b + 1.
Proof.
  destruct b as [|y b _] using rev_ind.
  - rewrite !lev_nil_r, length_app. cbn. lia.
  - rewrite lev_snoc. lia.
Qed.

Lemma lev_snoc_r_le a b y :
  levenshteinDistance a (b ++ [y]) <= levenshteinDistance a b + 1.
Proof.
  destruct a as [|x a _] using rev_ind.
  - rewrite !lev_nil_l, length_app. cbn. lia.
  - rewrite lev_snoc. lia.
Qed.

Lemma lev_rev_le_edits a b n :
  edits a b n -> levenshteinDistance (rev a) (rev b) <= n.
Proof.
  induction 1 as [|x a b n _ IH|x y a b n _ IH|x a b n _ IH|y a b n _ IH];
    cbn [rev].
  - now rewrite lev_nil_l.
  - rewrite lev_snoc, decide_True by reflexivity. lia.
  - rewrite lev_snoc. destruct (decide (x = y)); lia.
  - pose proof (lev_snoc_l_le (rev a) x (rev b)). lia.
  - pose proof (lev_snoc_r_le (rev a) (rev b) y). lia.
Qed.

Lemma lev_le_edits a b n : edits a b n -> levenshteinDistance a b <= n.
Proof.
  intros H. apply edits_rev, lev_rev_le_edits in H.
  now rewrite !rev_involutive in H.
Qed.
End DistanceByPrefixes.

(** ** Properties of [levenshteinDistance] *)

Section DistanceProperties.
Import Duplicate Distance Edit.

(** X1.  [levenshteinDistance] is the least number of single-character
    insertions, deletions and substitutions that turn its first string
    into its second: a script of that size exists and no script is
    smaller. *)
Theorem levenshteinDistance_least_edits (a b : jsstring) :
  edits a b (levenshteinDistance a b)
  /\ forall n, edits a b n -> levenshteinDistance a b <= n.
Proof. split; [apply lev_edits|intros n; apply lev_le_edits]. Qed.

Lemma levenshteinDistance_least_edits_witness :
  levenshteinDistance (js "cat") (js "cart") <= 1.
Proof.
  apply (levenshteinDistance_least_edits (js "cat") (js "cart")).
  vm_compute. do 2 apply edits_keep. apply edits_insert, edits_keep, edits_nil.
Defined.

(** X2.  The distance does not depend on the order of the two strings,
    whatever their lengths. *)
Theorem levenshteinDistance_symmetric (a b : jsstring) :
  levenshteinDistance a b = levenshteinDistance b a.
Proof. now rewrite !levenshteinDistance_table, table_sym. Qed.

(** X3.  The distance is 0 exactly when the two strings are the same. *)
Theorem levenshteinDistance_zero_iff (a b : jsstring) :
  levenshteinDistance a b = 0 <-> a = b.
Proof.
  split.
  - intros H. apply edits_zero. rewrite <- H. apply lev_edits.
  - intros ->. pose proof (lev_le_edits b b 0 (edits_refl b)). lia.
Qed.

Lemma levenshteinDistance_zero_iff_witness :
  levenshteinDistance (js "return x;") (js "return x;") = 0.
Proof.
  apply (levenshteinDistance_zero_iff (js "return x;") (js "return x;")).
  reflexivity.
Defined.

(** X4.  The distance satisfies the triangle inequality. *)
Theorem levenshteinDistance_triangle (a b c : jsstring) :
  levenshteinDistance a c <= levenshteinDistance a b + levenshteinDistance b c.
Proof.
  destruct (edits_trans a b _ (lev_edits a b) c _ (lev_edits b c))
    as (k & Hk & He).
  apply lev_le_edits in He. lia.
Qed.

(** X5.  The distance lies between the difference of the two lengths and
    the larger of them; against the empty string it is the length of the
    other string. *)
Theorem levenshteinDistance_bounds (a b : jsstring) :
  Nat.max (length a) (length b) - Nat.min (length a) (length b)
  <= levenshteinDistance a b <= Nat.max (length a) (length b)
  /\ levenshteinDistance a [] = length a
  /\ levenshteinDistance [] b = length b.
Proof.
  pose proof (edits_lengths a b _ (lev_edits a b)).
  pose proof (levenshteinDistance_le_max a b).
  split; [lia|]. split; [apply lev_nil_r|apply lev_nil_l].
Qed.
End DistanceProperties.

(** ** What the score and the threshold mean *)

Section ScoreMeaning.
Import Duplicate Distance Edit.

Lemma quotient_one (a b : Z) :
  (0 < b)%Z -> (inject_Z a / inject_Z b == 1)%Q <-> a = b.
Proof.
  intros Hb. destruct b as [|p|p]; try lia.
  unfold Qeq, Qdiv, Qmult, Qinv, inject_Z. cbn. lia.
Qed.

Lemma quotient_threshold (a b : Z) :
  (0 < b)%Z ->
  Qle_bool SIMILARITY_THRESHOLD (inject_Z a / inject_Z b) = true
  <-> (8 * b <= 10 * a)%Z.
Proof.
  intros Hb. rewrite Qle_bool_iff. destruct b as [|p|p]; try lia.
  unfold SIMILARITY_THRESHOLD, Qle, Qdiv, Qmult, Qinv, inject_Z. cbn. lia.
Qed.

(** The score of two different texts that both have the minimum length. *)
Lemma similarity_of_different (A B : jsstring) :
  A <> B ->
  MIN_DUPLICATE_LENGTH <= length A -> MIN_DUPLICATE_LENGTH <= length B ->
  let longer := if length B <? length A then A else B in
  let shorter := if length B <? length A then B else A in
  similarity (analyzeSimilarity A B)
  = Num (inject_Z (Z.of_nat (length longer)
                   - Z.of_nat (levenshteinDistance longer shorter))
         / inject_Z (Z.of_nat (length longer)))
  /\ 1 <= levenshteinDistance longer shorter <= length longer
  /\ MIN_DUPLICATE_LENGTH <= length longer.
Proof.
  intros Hne HA HB longer shorter. unfold MIN_DUPLICATE_LENGTH in *.
  assert (Hls : longer <> shorter).
  { subst longer shorter. destruct (length B <? length A); congruence. }
  assert (Hlen : length shorter <= length longer /\ 5 <= length longer).
  { subst longer shorter. destruct (Nat.ltb_spec (length B) (length A)); lia. }
  pose proof (levenshteinDistance_le_max longer shorter) as Hmax.
  assert (Hpos : levenshteinDistance longer shorter <> 0).
  { intros H0. apply Hls, edits_zero. rewrite <- H0. apply lev_edits. }
  split; [|lia].
  unfold analyzeSimilarity, str_eqb.
  rewrite bool_decide_eq_false_2 by exact Hne.
  destruct (Nat.ltb_spec (length A) MIN_DUPLICATE_LENGTH) as [H|_];
    [unfold MIN_DUPLICATE_LENGTH in H; lia|].
  destruct (Nat.ltb_spec (length B) MIN_DUPLICATE_LENGTH) as [H|_];
    [unfold MIN_DUPLICATE_LENGTH in H; lia|].
  cbn [orb similarity]. fold longer shorter. unfold divide.
  destruct (Z.eqb_spec (Z.of_nat (length longer)) 0); [lia|reflexivity].
Qed.

(** X6.  The score of [analyzeSimilarity] is a rational, and it is 1
    exactly when the two texts are identical. *)
Theorem score_one_iff_identical (A B : jsstring) :
  exists q : Q,
    similarity (analyzeSimilarity A B) = Num q
    /\ ((q == 1)%Q <-> A = B).
Proof.
  destruct (decide (A = B)) as [->|Hne].
  { exists 1%Q. unfold analyzeSimilarity, str_eqb.
    rewrite bool_decide_eq_true_2 by reflexivity. cbn. split; [reflexivity|].
    split; [reflexivity|intros _; reflexivity]. }
  destruct (Nat.ltb_spec (length A) MIN_DUPLICATE_LENGTH) as [HA|HA].
  { exists 0%Q. unfold analyzeSimilarity, str_eqb.
    rewrite bool_decide_eq_false_2 by exact Hne.
    destruct (Nat.ltb_spec (length A) MIN_DUPLICATE_LENGTH); [|lia].
    cbn. split; [reflexivity|]. split; [discriminate|contradiction]. }
  destruct (Nat.ltb_spec (length B) MIN_DUPLICATE_LENGTH) as [HB|HB].
  { exists 0%Q. unfold analyzeSimilarity, str_eqb.
    rewrite bool_decide_eq_false_2 by exact Hne.
    destruct (Nat.ltb_spec (length B) MIN_DUPLICATE_LENGTH); [|lia].
    rewrite orb_true_r.
    cbn. split; [reflexivity|]. split; [discriminate|contradiction]. }
  destruct (similarity_of_different A B Hne HA HB) as (Hs & Hd & Hl).
  eexists. split; [exact Hs|]. unfold MIN_DUPLICATE_LENGTH in Hl.
  rewrite quotient_one by lia. split; [lia|contradiction].
Qed.

(** X7.  For two different texts that both have the minimum length, the
    score reaches the threshold of 0.8, so that the pair is reported,
    exactly when the distance is at most a fifth of the length of the
    longer text. *)
Theorem threshold_is_a_fifth_of_the_length (A B : jsstring) :
  A <> B ->
  MIN_DUPLICATE_LENGTH <= length A -> MIN_DUPLICATE_LENGTH <= length B ->
  let longer := if length B <? length A then A else B in
  let shorter := if length B <? length A then B else A in
  at_least (similarity (analyzeSimilarity A B)) SIMILARITY_THRESHOLD = true
  <-> 5 * levenshteinDistance longer shorter <= length longer.
Proof.
  intros Hne HA HB longer shorter.
  destruct (similarity_of_different A B Hne HA HB) as (Hs & Hd & Hl).
  fold longer shorter in Hs, Hd, Hl. rewrite Hs. cbn [at_least].
  unfold MIN_DUPLICATE_LENGTH in Hl. rewrite quotient_threshold by lia. lia.
Qed.

Lemma threshold_is_a_fifth_of_the_length_witness :
  at_least (similarity (analyzeSimilarity Units.guarded_f Units.guarded_h))
           SIMILARITY_THRESHOLD = true.
Proof.
  apply (threshold_is_a_fifth_of_the_length Units.guarded_f Units.guarded_h).
  - discriminate.
  - vm_compute. lia.
  - vm_compute. lia.
  - vm_compute. lia.
Defined.
End ScoreMeaning.

(** ** The reported clusters *)

Section ClusterProperties.
Import Duplicate Cluster.

Lemma imap_pair_In {A : Type} (xs : list A) k x :
  In (k, x) (imap pair xs) -> xs !! k = Some x.
Proof.
  intros H. apply list_elem_of_In, elem_of_lookup_imap in H.
  destruct H as (i & y & [= -> ->] & Hy). exact Hy.
Qed.

Lemma line_matches_sound lines1 lines2 c :
  In c (line_matches lines1 lines2) ->
  2 <= length c /\ Forall (matching_pair lines1 lines2) c.
Proof.
  unfold line_matches, for_each_index.
  set (P := fun st : list (list entry) * list entry =>
              Forall (fun c => 2 <= length c
                               /\ Forall (matching_pair lines1 lines2) c)
                     (fst st)
              /\ Forall (matching_pair lines1 lines2) (snd st)).
  intros Hc.
  assert (HP : P (foldl
    (fun st kx =>
       foldl (fun st0 kx0 => compare_lines (fst kx) (snd kx) st0
                                           (fst kx0) (snd kx0))
             st (imap pair lines2))
    ([], []) (imap pair lines1))).
  { apply foldl_invariant_In; [|split; constructor].
    intros st [i line1] Hi Hst. apply imap_pair_In in Hi.
    apply foldl_invariant_In; [|exact Hst].
    intros [ms cur] [j line2] Hj [Hms Hcur]. apply imap_pair_In in Hj.
    cbn [fst snd] in *. unfold compare_lines, str_eqb.
    destruct (bool_decide_reflect (trim line1 = trim line2)) as [E|_].
    - split; [exact Hms|]. cbn [fst snd]. apply Forall_app. split; [exact Hcur|].
      constructor; [|constructor]. exists i, j, line1, line2. auto.
    - destruct (0 <? length cur); [|split; assumption].
      split; [|constructor]. cbn [fst].
      destruct (Nat.leb_spec 2 (length cur)); [|exact Hms].
      apply Forall_app. split; [exact Hms|]. constructor; [|constructor].
      split; assumption. }
  destruct HP as [HP _]. rewrite List.Forall_forall in HP. now apply HP.
Qed.

(** X8.  Every cluster that [analyzeSimilarity] returns for two different
    texts has at least 2 elements, and each element holds the 1-based
    numbers of a line of the first text and of a line of the second that
    are equal once trimmed, with that trimmed text. *)
Theorem clusters_hold_matching_lines (A B : jsstring) (c : list entry) :
  A <> B ->
  In c (matches (analyzeSimilarity A B)) ->
  2 <= length c
  /\ Forall (matching_pair (split LF A) (split LF B)) c.
Proof.
  intros Hne. unfold analyzeSimilarity, str_eqb.
  rewrite bool_decide_eq_false_2 by exact Hne.
  destruct (_ || _); [intros []|]. cbn [matches].
  apply line_matches_sound.
Qed.

Lemma clusters_hold_matching_lines_witness :
  2 <= length [Triple 4 4 (js "}"); Triple 4 5 (js "}")]
  /\ Forall (matching_pair (split LF Units.guarded_f) (split LF Units.guarded_h))
            [Triple 4 4 (js "}"); Triple 4 5 (js "}")].
Proof.
  apply (clusters_hold_matching_lines Units.guarded_f Units.guarded_h).
  - discriminate.
  - vm_compute. left. reflexivity.
Defined.
End ClusterProperties.

(** ** The keys of the compared pairs *)

Section PairKeys.
Import Duplicate.

Lemma js_inj s t : js s = js t -> s = t.
Proof.
  unfold js. intros H.
  rewrite <- (string_of_list_ascii_of_string s),
          <- (string_of_list_ascii_of_string t).
  f_equal. revert H.
  generalize (list_ascii_of_string s) (list_ascii_of_string t).
  induction l as [|a l IH]; intros [|b l']; cbn; try discriminate; auto.
  intros [= Hab Hl]. f_equal; [|now apply IH].
  rewrite <- (ascii_N_embedding a), <- (ascii_N_embedding b). now rewrite Hab.
Qed.

Lemma to_string_inj n m : to_string n = to_string m -> n = m.
Proof.
  unfold to_string. intros H. apply js_inj in H.
  assert (Hnil : forall k, Nat.to_uint k <> Decimal.Nil).
  { intros k. rewrite <- (DecimalNat.Unsigned.of_to k) at 1.
    rewrite DecimalNat.Unsigned.to_of. apply DecimalFacts.unorm_nonnil. }
  apply DecimalNat.Unsigned.to_uint_inj.
  pose proof (NilZero.usu _ (Hnil n)) as Hn.
  pose proof (NilZero.usu _ (Hnil m)) as Hm.
  rewrite H in Hn. congruence.
Qed.

Lemma digits_no_hyphen d :
  Forall (fun c => c <> HYPHEN) (js (NilEmpty.string_of_uint d)).
Proof.
  induction d; cbn; constructor; try assumption; discriminate.
Qed.

Lemma to_string_no_hyphen n : Forall (fun c => c <> HYPHEN) (to_string n).
Proof.
  unfold to_string. destruct (Nat.to_uint n).
  1: cbn; constructor; [discriminate|constructor].
  all: match goal with
       | |- context [NilZero.string_of_uint ?d] => exact (digits_no_hyphen d)
       end.
Qed.

Lemma less_than_asym a : forall b, less_than a b = true -> less_than b a = false.
Proof.
  induction a as [|x a IH]; intros [|y b]; cbn; try easy.
  destruct (N.ltb_spec x y), (N.ltb_spec y x); try easy; try lia.
  apply IH.
Qed.

Lemma less_than_total a : forall b,
  less_than a b = false -> less_than b a = false -> a = b.
Proof.
  induction a as [|x a IH]; intros [|y b]; cbn; try easy.
  destruct (N.ltb_spec x y), (N.ltb_spec y x); try easy.
  intros Hab Hba. f_equal; [lia|now apply IH].
Qed.

Lemma pair_key_shape loc1 loc2 :
  pair_key loc1 loc2 = to_string loc1 ++ HYPHEN :: to_string loc2
  \/ pair_key loc1 loc2 = to_string loc2 ++ HYPHEN :: to_string loc1.
Proof.
  unfold pair_key. destruct (less_than _ _); [right|left]; reflexivity.
Qed.

Lemma hyphen_split x : forall x' y y',
  Forall (fun c => c <> HYPHEN) x -> Forall (fun c => c <> HYPHEN) x' ->
  x ++ HYPHEN :: y = x' ++ HYPHEN :: y' -> x = x' /\ y = y'.
Proof.
  induction x as [|c x IH]; intros [|c' x'] y y' Hx Hx'; cbn.
  - intros [= ->]. auto.
  - intros [= <- _]. inversion Hx'; congruence.
  - intros [= -> _]. inversion Hx; congruence.
  - intros [= -> H]. inversion Hx; inversion Hx'; subst.
    destruct (IH x' y y') as [-> ->]; auto.
Qed.

Lemma pair_key_sym loc1 loc2 : pair_key loc1 loc2 = pair_key loc2 loc1.
Proof.
  unfold pair_key.
  destruct (less_than (to_string loc2) (to_string loc1)) eqn:E1;
    destruct (less_than (to_string loc1) (to_string loc2)) eqn:E2;
    try reflexivity.
  - apply less_than_asym in E1. congruence.
  - now rewrite (less_than_total _ _ E1 E2).
Qed.

Lemma pair_key_inj loc1 loc2 loc3 loc4 :
  pair_key loc1 loc2 = pair_key loc3 loc4 ->
  (loc1 = loc3 /\ loc2 = loc4) \/ (loc1 = loc4 /\ loc2 = loc3).
Proof.
  intros H.
  destruct (pair_key_shape loc1 loc2) as [E|E], (pair_key_shape loc3 loc4) as [E'|E'];
    rewrite E, E' in H;
    apply hyphen_split in H; try apply to_string_no_hyphen;
    destruct H as [H1 H2]; apply to_string_inj in H1, H2; auto.
Qed.

(** X9.  The key of a pair of lines does not depend on their order, and
    two pairs with the same key are the same pair up to their order. *)
Theorem pair_key_identifies_the_pair (loc1 loc2 loc3 loc4 : nat) :
  pair_key loc1 loc2 = pair_key loc2 loc1
  /\ (pair_key loc1 loc2 = pair_key loc3 loc4 ->
      (loc1 = loc3 /\ loc2 = loc4) \/ (loc1 = loc4 /\ loc2 = loc3)).
Proof. split; [apply pair_key_sym|apply pair_key_inj]. Qed.

Lemma pair_key_identifies_the_pair_witness :
  pair_key 8 15 = pair_key 15 8
  /\ ((8 = 15 /\ 15 = 8) \/ (8 = 8 /\ 15 = 15)).
Proof.
  destruct (pair_key_identifies_the_pair 8 15 15 8) as [Hsym Hinj].
  split; [exact Hsym|]. apply Hinj. reflexivity.
Defined.
End PairKeys.

(** ** Each pair of blocks is compared once *)

Section EachPairOnce.
Import Duplicate Pairs.









End EachPairOnce.

(** ** The order of the blocks in the map *)

Section BlockOrder.
Import Duplicate Extraction.
Variable generate : node -> jsstring.

Lemma map_set_fst l b (m : blocks) :
  map fst (map_set l b m)
  = if in_dec Nat.eq_dec l (map fst m) then map fst m else map fst m ++ [l].
Proof using Type.
  induction m as [|[k v] m IH]; cbn [map_set map fst].
  - destruct (in_dec Nat.eq_dec l []) as [[]|_]. reflexivity.
  - destruct (Nat.eqb_spec k l) as [->|Hkl]; cbn [map fst].
    + destruct (in_dec Nat.eq_dec l (l :: map fst m)) as [_|Hn]; [reflexivity|].
      exfalso. apply Hn. now left.
    + rewrite IH. destruct (in_dec Nat.eq_dec l (map fst m)) as [Hin|Hn];
        destruct (in_dec Nat.eq_dec l (k :: map fst m)) as [Hin'|Hn'];
        try reflexivity.
      * exfalso. apply Hn'. now right.
      * exfalso. destruct Hin' as [E|Hin']; [now apply Hkl|now apply Hn].
Qed.

(** X11.  The keys of [codeBlocks] are the lines of the recorded nodes in
    the order in which each line was recorded first: a block that
    overwrites another takes its place in the order of the map. *)
Theorem keys_in_order_of_first_record (entered : list node) :
  map fst (extract generate entered)
  = rev (nodup Nat.eq_dec (rev (map fst (omap (recorded generate) entered)))).
Proof using Type.
  induction entered as [|n entered IH] using rev_ind; [reflexivity|].
  rewrite extract_snoc, enter_recorded, omap_app. cbn [omap list_omap].
  destruct (recorded generate n) as [[l b]|].
  - rewrite map_set_fst, map_app, rev_app_distr. cbn [map fst rev app nodup].
    rewrite IH.
    destruct (in_dec Nat.eq_dec l (rev (map fst (omap (recorded generate) entered))))
      as [Hin|Hn];
      destruct (in_dec Nat.eq_dec l
                  (rev (nodup Nat.eq_dec
                          (rev (map fst (omap (recorded generate) entered))))))
        as [Hin'|Hn']; try reflexivity.
    + exfalso. apply Hn'. apply (proj1 (in_rev _ _)).
      apply (proj2 (nodup_In _ _ _)), Hin.
    + exfalso. apply Hn. apply (proj2 (in_rev _ _)) in Hin'.
      apply (proj1 (nodup_In _ _ _)) in Hin'. exact Hin'.
  - now rewrite app_nil_r.
Qed.
End BlockOrder.

(** ** When the nesting check reports *)

Section NestingReports.
Import Nesting Tree.

(** X12.  The nesting check returns no issue exactly when its traversal
    enters no node at a depth above the threshold. *)
Theorem no_issue_iff_no_deep_call (maxNestingDepth : nat) (root : node) :
  analyze maxNestingDepth root = []
  <-> forall m d, entered root 0 m d -> d <= maxNestingDepth.
Proof.
  unfold analyze. rewrite detect_visits. split.
  - intros Hnone m d Hm. destruct (Nat.le_gt_cases d maxNestingDepth) as [|Hd];
      [assumption|].
    pose proof (observe_reports maxNestingDepth _ initial _ d
                  initial_consistent (entered_visits _ _ _ _ Hm) Hd) as Hin.
    unfold lines in Hin. rewrite Hnone in Hin. destruct Hin.
  - intros Hall. rewrite observe_quiet; [reflexivity|].
    apply List.Forall_forall. intros [l d] Hin.
    apply visits_entered in Hin. destruct Hin as (m & Hm & _).
    cbn [snd]. eauto.
Qed.

Lemma no_issue_iff_no_deep_call_witness :
  enter (node_type Samples.callbacks3) 0 <= 3.
Proof.
  apply (proj1 (no_issue_iff_no_deep_call 3 Samples.callbacks3))
    with (m := Samples.callbacks3).
  - vm_compute. reflexivity.
  - apply entered_here.
Defined.

(** X13.  Raising the threshold never adds a reported line: every line
    reported with a threshold is reported with every smaller one. *)
Theorem higher_threshold_reports_less (low high : nat) (root : node) (l : nat) :
  low <= high ->
  In l (map line (analyze high root)) ->
  In l (map line (analyze low root)).
Proof.
  intros Hle Hin. apply in_map_iff in Hin. destruct Hin as (i & <- & Hi).
  unfold analyze in *. rewrite detect_visits in *.
  apply observe_origin in Hi. destruct Hi as [[]|[Hv Hd]].
  apply (observe_reports low _ initial _ (depth i) initial_consistent Hv). lia.
Qed.

Lemma higher_threshold_reports_less_witness :
  In 1 (map line (analyze 2 Samples.arrows4)).
Proof.
  apply (higher_threshold_reports_less 2 3 Samples.arrows4 1).
  - lia.
  - vm_compute. now left.
Defined.
End NestingReports.

(** ** The analysis of one file *)

Section FileAnalysis.
Import Duplicate Detector.

Lemma key_of_inj filePath l n l' n' :
  key_of filePath l n = key_of filePath l' n' -> l = l' /\ n = n'.
Proof.
  unfold key_of. intros H. apply app_inv_head in H.
  change (js "-") with [HYPHEN] in H. cbn [app] in H. injection H as H.
  apply hyphen_split in H; try apply to_string_no_hyphen.
  destruct H as [H ->]. apply to_string_inj in H. auto.
Qed.

Lemma has_app key d d' : has key (d ++ d') = has key d || has key d'.
Proof. unfold has. apply existsb_app. Qed.

Variable filePath : jsstring.

Lemma record_all_keep_first pairs : forall detected seen,
  (forall l n, has (key_of filePath l n) detected = true <-> (l, n) ∈ seen) ->
  foldl (fun d so => record_occurrence filePath (fst so) d (snd so))
        detected pairs
  = detected ++ map (entry_of filePath) (keep_first seen pairs).
Proof using Type.
  induction pairs as [|[s o] pairs IH]; intros detected seen Hseen.
  { cbn. now rewrite app_nil_r. }
  cbn [foldl keep_first fst snd]. unfold record_occurrence at 2.
  destruct (bool_decide_reflect ((at_line o, name s) ∈ seen)) as [Hin|Hnin].
  - apply Hseen in Hin. rewrite Hin. cbn [negb]. now apply IH.
  - destruct (has (key_of filePath (at_line o) (name s)) detected) eqn:Hhas.
    { exfalso. apply Hnin, Hseen, Hhas. }
    cbn [negb]. rewrite (IH _ ((at_line o, name s) :: seen)).
    + cbn [map]. now rewrite <- app_assoc.
    + intros l n. rewrite has_app, orb_true_iff, Hseen, elem_of_cons.
      cbn [has existsb fst]. rewrite orb_false_r. unfold str_eqb.
      rewrite bool_decide_eq_true. split.
      * intros [H|H]; [now right|left].
        apply key_of_inj in H. destruct H; congruence.
      * intros [[= -> ->]|H]; [now right|now left].
Qed.

Variable readFileSync : jsstring -> completion jsstring.
Variable codeSmells : list Detector.smell.
Variables (projectRoot : jsstring) (lines : list jsstring).

Lemma run_checks_ends smells : forall detected printed result,
  ends (run_checks lines filePath projectRoot smells detected printed)
  = Normal result ->
  Forall (fun s => exists occurrences,
            ends (check s lines filePath projectRoot) = Normal occurrences)
         smells
  /\ result
     = foldl (fun d so => record_occurrence filePath (fst so) d (snd so))
             detected (all_occurrences lines filePath projectRoot smells).
Proof using Type.
  induction smells as [|s smells IH]; intros detected printed result.
  { cbn. intros [= <-]. split; [constructor|reflexivity]. }
  cbn [run_checks all_occurrences flat_map]. unfold returned.
  destruct (ends (check s lines filePath projectRoot)) as [occs|m] eqn:E;
    [|discriminate].
  intros H. apply IH in H. destruct H as [Hall ->]. split.
  - constructor; [now exists occs|exact Hall].
  - rewrite foldl_app. f_equal. clear.
    revert detected. induction occs as [|o occs IH]; intros d; [reflexivity|].
    cbn [map foldl fst snd]. apply IH.
Qed.

Lemma run_checks_throws smells : forall detected printed s message,
  In s smells ->
  ends (check s lines filePath projectRoot) = Throw message ->
  exists message',
    ends (run_checks lines filePath projectRoot smells detected printed)
    = Throw message'.
Proof using Type.
  induction smells as [|s0 smells IH]; intros detected printed s message Hin Hs;
    [destruct Hin|].
  cbn [run_checks].
  destruct (ends (check s0 lines filePath projectRoot)) as [occs|m] eqn:E.
  - destruct Hin as [->|Hin]; [congruence|]. eapply IH; eauto.
  - now exists m.
Qed.

Lemma keep_first_In seen pairs so :
  In so (keep_first seen pairs) -> In so pairs.
Proof using Type.
  revert seen. induction pairs as [|[s o] pairs IH]; intros seen; [easy|].
  cbn [keep_first]. destruct (bool_decide _).
  - intros H. right. eapply IH, H.
  - intros [<-|H]; [now left|right; eapply IH, H].
Qed.

Lemma keep_first_fresh seen pairs so :
  In so (keep_first seen pairs) ->
  (at_line (snd so), name (fst so)) ∉ seen.
Proof using Type.
  revert seen. induction pairs as [|[s o] pairs IH]; intros seen; [easy|].
  cbn [keep_first].
  destruct (bool_decide_reflect ((at_line o, name s) ∈ seen)) as [Hin|Hnin].
  - apply IH.
  - intros [<-|H]; [exact Hnin|]. apply IH in H.
    intros Hs. apply H. now right.
Qed.

Lemma keep_first_NoDup seen pairs :
  NoDup (map (fun so : Detector.smell * occurrence =>
                (at_line (snd so), name (fst so)))
             (keep_first seen pairs)).
Proof using Type.
  revert seen. induction pairs as [|[s o] pairs IH]; intros seen; [constructor|].
  cbn [keep_first]. destruct (bool_decide _); [apply IH|].
  cbn [map fst snd]. apply NoDup_cons. split; [|apply IH].
  intros Hin. apply list_elem_of_In, in_map_iff in Hin.
  destruct Hin as (so & E & Hso). apply keep_first_fresh in Hso.
  apply Hso. rewrite E. now left.
Qed.

Lemma keep_first_complete pairs s o : forall seen,
  In (s, o) pairs ->
  (at_line o, name s) ∈ seen
  \/ exists s' o', In (s', o') (keep_first seen pairs)
                   /\ at_line o' = at_line o /\ name s' = name s.
Proof using Type.
  induction pairs as [|[s0 o0] pairs IH]; intros seen; [easy|].
  cbn [keep_first].
  destruct (bool_decide_reflect ((at_line o0, name s0) ∈ seen)) as [Hin|Hnin].
  - intros [[= -> ->]|H]; [now left|now apply IH].
  - intros [[= -> ->]|H].
    + right. exists s, o. split; [now left|auto].
    + destruct (IH ((at_line o0, name s0) :: seen) H) as [Hs|(s' & o' & H' & E)].
      * apply elem_of_cons in Hs. destruct Hs as [[= E1 E2]|Hs]; [|now left].
        right. exists s0, o0. split; [now left|auto].
      * right. exists s', o'. split; [now right|exact E].
Qed.
End FileAnalysis.

Section FileAnalysisProperties.
Import Duplicate Detector.

Lemma trim_start_keeps (P : N -> Prop) s :
  (forall c, P c -> is_white_space c = false) ->
  Exists P s -> Exists P (trim_start s).
Proof.
  intros HP. induction s as [|c s IH]; intros Hs; [exact Hs|].
  cbn [trim_start]. destruct (is_white_space c) eqn:Hc; [|exact Hs].
  apply IH. inversion Hs as [? ? Hx|]; subst; [|assumption].
  apply HP in Hx. congruence.
Qed.

(** A text that holds a character other than white space is not blank. *)
Lemma trim_not_blank content :
  Exists (fun c => is_white_space c = false) content ->
  exists c t, trim content = c :: t.
Proof.
  intros Hc. unfold trim.
  assert (H : Exists (fun c => is_white_space c = false)
                (rev (trim_start (rev (trim_start content))))).
  { apply List.Exists_rev, trim_start_keeps; [auto|].
    apply List.Exists_rev, trim_start_keeps; auto. }
  destruct (rev (trim_start (rev (trim_start content)))) as [|c t];
    [inversion H|eauto].
Qed.

(** X14.  A file that cannot be read gives no finding and no failure:
    the one thing written is the [console.error] of the path and of the
    message of the error.  A file that is read is skipped, with no finding
    and the one warning, when it holds nothing but white space and line
    terminators, and only then: as soon as it holds another character the
    checks are run on its lines, and what they write and how they end is
    what [analyzeFile] writes and how it ends.  In the first two cases no
    check is called, so the outcome does not depend on the checks. *)
Theorem unreadable_or_blank_file_has_no_finding
    (readFileSync : jsstring -> completion jsstring)
    (codeSmells : list Detector.smell)
    (format : jsstring -> jsstring -> jsstring)
    (filePath projectRoot : jsstring)
    (selectedSmells : option (list jsstring)) :
  let result :=
    analyzeFile readFileSync codeSmells format filePath projectRoot
                selectedSmells in
  (forall message, readFileSync filePath = Throw message ->
     result
     = Run (Normal [])
           [format (js "Error reading file " ++ filePath ++ js ":") message])
  /\ (forall content, readFileSync filePath = Normal content ->
        Forall (fun c => is_white_space c = true) content ->
        result = Run (Normal []) [js "Skipping empty file: " ++ filePath])
  /\ (forall content, readFileSync filePath = Normal content ->
        Exists (fun c => is_white_space c = false) content ->
        let checks :=
          run_checks (split LF content) filePath projectRoot
                     (smells_to_check codeSmells selectedSmells) [] [] in
        console result = console checks
        /\ ends result
           = match ends checks with
             | Normal smellsDetected => Normal (map snd smellsDetected)
             | Throw message => Throw message
             end).
Proof.
  intros result. subst result. split; [|split].
  - intros message H. unfold analyzeFile. now rewrite H.
  - intros content H Hws. unfold analyzeFile. rewrite H.
    assert (E : trim_start content = []).
    { clear H. induction Hws as [|c content Hc _ IH]; [reflexivity|].
      cbn [trim_start]. now rewrite Hc. }
    unfold trim. now rewrite E.
  - intros content H Hc checks. unfold analyzeFile. rewrite H.
    destruct (trim_not_blank content Hc) as (c & t & ->).
    fold checks. now destruct (ends checks).
Qed.

Lemma unreadable_or_blank_file_has_no_finding_witness :
  analyzeFile (fun _ => Normal (js "  ")) [] Smells.format_plain
              (js "a.js") (js ".") None
  = Run (Normal []) [js "Skipping empty file: a.js"].
Proof.
  destruct (unreadable_or_blank_file_has_no_finding
              (fun _ => Normal (js "  ")) [] Smells.format_plain
              (js "a.js") (js ".") None)
    as (_ & H & _).
  apply (H (js "  ")); [reflexivity|].
  repeat constructor.
Defined.

(** X15.  When the file is read, is not blank and every selected check
    returns, the findings are, in the order of the checks and of their
    occurrences, the first occurrence of each line and smell name: later
    occurrences with the same line and the same name are dropped, whatever
    their description. *)
Theorem findings_are_first_occurrences
    (readFileSync : jsstring -> completion jsstring)
    (codeSmells : list Detector.smell)
    (format : jsstring -> jsstring -> jsstring)
    (filePath projectRoot : jsstring)
    (selectedSmells : option (list jsstring)) (content : jsstring) :
  readFileSync filePath = Normal content ->
  trim content <> [] ->
  Forall (fun s => exists occurrences,
            ends (check s (split LF content) filePath projectRoot)
            = Normal occurrences)
         (smells_to_check codeSmells selectedSmells) ->
  ends (analyzeFile readFileSync codeSmells format filePath projectRoot
                    selectedSmells)
  = Normal
      (map (fun so => finding_of filePath (fst so) (snd so))
           (keep_first []
              (all_occurrences (split LF content) filePath projectRoot
                               (smells_to_check codeSmells selectedSmells)))).
Proof.
  intros Hread Hblank Hall. unfold analyzeFile. rewrite Hread.
  destruct (trim content) as [|c t]; [contradiction|].
  destruct (ends (run_checks (split LF content) filePath projectRoot
                             (smells_to_check codeSmells selectedSmells) [] []))
    as [detected|m] eqn:E.
  - apply run_checks_ends in E. destruct E as [_ ->].
    rewrite (record_all_keep_first filePath _ [] []).
    + cbn [app ends]. now rewrite map_map.
    + intros l n. cbn. split; [discriminate|]. intros H. inversion H.
  - exfalso. revert E. generalize (@nil (jsstring * finding)) (@nil jsstring).
    induction Hall as [|s smells (occs & Hs) _ IH]; intros d p; [discriminate|].
    cbn [run_checks]. rewrite Hs. apply IH.
Qed.

Lemma findings_are_first_occurrences_witness :
  ends (analyzeFile Smells.read_one_line [Smells.twice] Smells.format_plain
                    (js "a.js") (js ".") None)
  = Normal [Finding (js "a.js") 1 (js "Lengthy Lines") (js "first")
                    (Some (js "Break lengthy lines"));
            Finding (js "a.js") 2 (js "Lengthy Lines") (js "third")
                    (Some (js "Break lengthy lines"))].
Proof.
  apply (findings_are_first_occurrences Smells.read_one_line [Smells.twice]
           Smells.format_plain (js "a.js") (js ".") None (js "const x = 1;")).
  - reflexivity.
  - vm_compute. discriminate.
  - repeat constructor. eexists. reflexivity.
Defined.

(** X16.  When the file is read and is not blank, the findings that
    [analyzeFile] returns have pairwise distinct pairs of line and smell
    name; each of them carries the file, and the line and description of
    an occurrence of a selected smell with the name and fix of that smell;
    and every occurrence of a selected smell has a finding with its line
    and the name of its smell. *)
Theorem findings_are_deduplicated
    (readFileSync : jsstring -> completion jsstring)
    (codeSmells : list Detector.smell)
    (format : jsstring -> jsstring -> jsstring)
    (filePath projectRoot : jsstring)
    (selectedSmells : option (list jsstring)) (content : jsstring)
    (findings : list finding) :
  readFileSync filePath = Normal content ->
  trim content <> [] ->
  ends (analyzeFile readFileSync codeSmells format filePath projectRoot
                    selectedSmells)
  = Normal findings ->
  let occurrences_of s :=
    returned (check s (split LF content) filePath projectRoot) in
  List.NoDup (map (fun f => (line f, smell_name f)) findings)
  /\ (forall f, In f findings ->
        exists s o, In s (smells_to_check codeSmells selectedSmells)
                    /\ In o (occurrences_of s)
                    /\ f = Finding filePath (at_line o) (name s) (says o)
                                  (fix_ s))
  /\ (forall s o, In s (smells_to_check codeSmells selectedSmells) ->
        In o (occurrences_of s) ->
        exists f, In f findings /\ line f = at_line o
                  /\ smell_name f = name s).
Proof.
  intros Hread Hblank Hends occurrences_of.
  unfold analyzeFile in Hends. rewrite Hread in Hends.
  destruct (trim content) as [|c t]; [contradiction|].
  destruct (ends (run_checks (split LF content) filePath projectRoot
                             (smells_to_check codeSmells selectedSmells) [] []))
    as [detected|m] eqn:E; [|discriminate].
  cbn [ends] in Hends. injection Hends as <-.
  apply run_checks_ends in E. destruct E as [_ ->].
  rewrite (record_all_keep_first filePath _ [] []);
    [|intros l n; cbn; split; [discriminate|intros H; inversion H]].
  cbn [app]. set (pairs := all_occurrences _ _ _ _).
  replace (map snd (map (entry_of filePath) (keep_first [] pairs)))
    with (map (fun so => finding_of filePath (fst so) (snd so))
              (keep_first [] pairs))
    by (now rewrite map_map).
  assert (Hpairs : forall s o, In (s, o) pairs <->
            In s (smells_to_check codeSmells selectedSmells)
            /\ In o (occurrences_of s)).
  { intros s o. subst pairs. unfold all_occurrences. rewrite in_flat_map.
    split.
    - intros (s' & Hs' & Hin). apply in_map_iff in Hin.
      destruct Hin as (o' & [= -> ->] & Ho'). auto.
    - intros [Hs Ho]. exists s. split; [exact Hs|]. now apply in_map. }
  repeat split.
  - rewrite map_map. cbn [finding_of line smell_name].
    apply NoDup_ListNoDup, keep_first_NoDup.
  - intros f Hf. apply in_map_iff in Hf. destruct Hf as ([s o] & <- & Hso).
    apply keep_first_In, Hpairs in Hso. exists s, o. tauto.
  - intros s o Hs Ho.
    destruct (keep_first_complete pairs s o []) as [Hin|(s' & o' & Hin & E1 & E2)].
    + apply Hpairs. auto.
    + inversion Hin.
    + exists (finding_of filePath s' o'). split; [|auto].
      apply in_map_iff. exists (s', o'). auto.
Qed.

Lemma findings_are_deduplicated_witness :
  List.NoDup [(1, js "Lengthy Lines"); (2, js "Lengthy Lines")].
Proof.
  destruct (findings_are_deduplicated Smells.read_one_line [Smells.twice]
              Smells.format_plain (js "a.js") (js ".") None (js "const x = 1;")
              [Finding (js "a.js") 1 (js "Lengthy Lines") (js "first")
                       (Some (js "Break lengthy lines"));
               Finding (js "a.js") 2 (js "Lengthy Lines") (js "third")
                       (Some (js "Break lengthy lines"))]) as [H _].
  - reflexivity.
  - vm_compute. discriminate.
  - vm_compute. reflexivity.
  - exact H.
Defined.

(** X17.  When the file is read and is not blank and the check of a
    selected smell throws, [analyzeFile] throws: the findings of the other
    checks are not returned. *)
Theorem throwing_check_fails_the_file
    (readFileSync : jsstring -> completion jsstring)
    (codeSmells : list Detector.smell)
    (format : jsstring -> jsstring -> jsstring)
    (filePath projectRoot : jsstring)
    (selectedSmells : option (list jsstring)) (content : jsstring)
    (s : Detector.smell) (message : jsstring) :
  readFileSync filePath = Normal content ->
  trim content <> [] ->
  In s (smells_to_check codeSmells selectedSmells) ->
  ends (check s (split LF content) filePath projectRoot) = Throw message ->
  exists message',
    ends (analyzeFile readFileSync codeSmells format filePath projectRoot
                      selectedSmells)
    = Throw message'.
Proof.
  intros Hread Hblank Hs Hthrow. unfold analyzeFile. rewrite Hread.
  destruct (trim content) as [|c t]; [contradiction|].
  destruct (run_checks_throws filePath projectRoot (split LF content)
              (smells_to_check codeSmells selectedSmells) [] [] s message
              Hs Hthrow) as (m & Hm).
  rewrite Hm. now exists m.
Qed.

Lemma throwing_check_fails_the_file_witness :
  exists message',
    ends (analyzeFile Smells.read_one_line [Smells.twice; Smells.throwing]
                      Smells.format_plain (js "a.js") (js ".") None)
    = Throw message'.
Proof.
  apply (throwing_check_fails_the_file Smells.read_one_line
           [Smells.twice; Smells.throwing] Smells.format_plain (js "a.js") (js ".") None
           (js "const x = 1;") Smells.throwing (js "boom")).
  - reflexivity.
  - vm_compute. discriminate.
  - right. now left.
  - reflexivity.
Defined.
End FileAnalysisProperties.

(** ** Lines and text *)

Section LinesAndText.
Import Duplicate.

Lemma split_nonempty sep s : split sep s <> [].
Proof.
  destruct s as [|c s]; cbn; [discriminate|].
  destruct (c =? sep)%N; [discriminate|]. destruct (split sep s); discriminate.
Qed.

Lemma split_length sep s :
  length (split sep s) = S (count_occ N.eq_dec s sep).
Proof.
  induction s as [|c s IH]; [reflexivity|]. cbn [split count_occ].
  destruct (N.eqb_spec c sep) as [->|Hne].
  - destruct (N.eq_dec sep sep); [|contradiction]. cbn [length]. now rewrite IH.
  - destruct (N.eq_dec c sep); [contradiction|].
    destruct (split sep s) eqn:E; [now apply split_nonempty in E|].
    cbn [length] in *. exact IH.
Qed.

Lemma join_cons sep l ls :
  ls <> [] -> join sep (l :: ls) = l ++ sep ++ join sep ls.
Proof. destruct ls; [contradiction|reflexivity]. Qed.

Lemma join_split s : join [LF] (split LF s) = s.
Proof.
  induction s as [|c s IH]; [reflexivity|]. cbn [split].
  destruct (N.eqb_spec c LF) as [->|Hne].
  - rewrite join_cons by apply split_nonempty. now rewrite IH.
  - destruct (split LF s) as [|l ls] eqn:E; [now apply split_nonempty in E|].
    rewrite <- IH. destruct ls; reflexivity.
Qed.

Lemma split_free l : Forall (fun c => c <> LF) l -> split LF l = [l].
Proof.
  induction 1 as [|c l Hc _ IH]; [reflexivity|]. cbn [split].
  destruct (N.eqb_spec c LF); [contradiction|]. now rewrite IH.
Qed.

Lemma split_app_sep l r :
  Forall (fun c => c <> LF) l -> split LF (l ++ LF :: r) = l :: split LF r.
Proof.
  induction 1 as [|c l Hc _ IH]; cbn [app split].
  - now rewrite N.eqb_refl.
  - destruct (N.eqb_spec c LF); [contradiction|]. now rewrite IH.
Qed.

Lemma split_join ls :
  ls <> [] -> Forall (Forall (fun c => c <> LF)) ls ->
  split LF (join [LF] ls) = ls.
Proof.
  intros Hne Hall. induction Hall as [|l ls Hl Hls IH]; [contradiction|].
  destruct ls as [|l' ls].
  - cbn [join]. now apply split_free.
  - rewrite join_cons by discriminate. cbn [app].
    rewrite split_app_sep by exact Hl. f_equal. now apply IH.
Qed.

(** X18.  Joining with line feeds the lines that [split] made of a text
    gives the text back, so the checks that join the lines see the content
    of the file; and splitting the joined lines gives the lines back when
    there is at least one and none holds a line feed. *)
Theorem lines_and_text_round_trip (content : jsstring)
    (lines : list jsstring) :
  join [LF] (split LF content) = content
  /\ (lines <> [] -> Forall (Forall (fun c => c <> LF)) lines ->
      split LF (join [LF] lines) = lines).
Proof. split; [apply join_split|apply split_join]. Qed.

Lemma lines_and_text_round_trip_witness :
  split LF (join [LF] [js "if (x) {"; js "}"]) = [js "if (x) {"; js "}"].
Proof.
  apply (lines_and_text_round_trip [] [js "if (x) {"; js "}"]).
  - discriminate.
  - repeat constructor; discriminate.
Defined.
End LinesAndText.

(** ** The checks on the text of the lines *)

Section TextualChecks.
Import Duplicate Detector Textual.

Lemma concat_imap_In {A B : Type} (f : nat -> A -> list B) l y :
  In y (concat (imap f l)) <-> exists i x, l !! i = Some x /\ In y (f i x).
Proof.
  rewrite in_concat. split.
  - intros (ys & Hys & Hy). apply list_elem_of_In, elem_of_lookup_imap in Hys.
    destruct Hys as (i & x & -> & Hx). eauto.
  - intros (i & x & Hx & Hy). exists (f i x). split; [|exact Hy].
    apply list_elem_of_In, elem_of_lookup_imap. eauto.
Qed.

(** Occurrences pushed line by line, at most one for a line, come in the
    order of the lines. *)
Lemma line_by_line_sorted (f : nat -> jsstring -> list occurrence) :
  (forall i x o, In o (f i x) -> at_line o = i + 1) ->
  (forall i x, length (f i x) <= 1) ->
  forall lines, Sorted.StronglySorted lt (map at_line (concat (imap f lines))).
Proof.
  intros Hline Hone lines.
  enough (H : forall base,
            Sorted.StronglySorted lt
              (map at_line (concat (imap (fun i => f (base + i)) lines)))
            /\ Forall (fun n => base < n)
                 (map at_line (concat (imap (fun i => f (base + i)) lines)))).
  { destruct (H 0) as [Hs _]. exact Hs. }
  induction lines as [|x lines IH]; intros base; [split; constructor|].
  rewrite imap_cons. cbn [concat]. rewrite map_app.
  rewrite (imap_ext _ (fun i => f (S base + i)))
    by (intros i y _; cbn; f_equal; lia).
  destruct (IH (S base)) as [Hs Hall]. rewrite Nat.add_0_r.
  pose proof (Hone base x) as H1. pose proof (Hline base x) as Hl.
  destruct (f base x) as [|o [|o' rest]]; cbn [length] in H1; [| |lia].
  - cbn [map app]. split; [exact Hs|].
    eapply Forall_impl; [exact Hall|]. cbn. intros; lia.
  - cbn [map app]. rewrite (Hl o) by now left. split.
    + constructor; [exact Hs|].
      eapply Forall_impl; [exact Hall|]. cbn. intros; lia.
    + constructor; [lia|].
      eapply Forall_impl; [exact Hall|]. cbn. intros; lia.
Qed.

(** X19.  The Lengthy Lines check reports its lines in increasing order,
    each at most once; a line is reported exactly when none of the three
    exemption tests holds of it and it has more than 80 characters. *)
Theorem lengthy_lines_reports_long_lines
    (tailwindRegex jsxTagRegex commentRegex : jsstring -> bool)
    (lines : list jsstring) :
  let reported :=
    map at_line (lengthy_lines tailwindRegex jsxTagRegex commentRegex lines) in
  Sorted.StronglySorted lt reported
  /\ forall idx, In (idx + 1) reported <->
       exists line, lines !! idx = Some line
         /\ tailwindRegex line || jsxTagRegex line || commentRegex line = false
         /\ WARNING_THRESHOLD < length line.
Proof.
  intros reported. subst reported. unfold lengthy_lines.
  assert (Hline : forall i x o,
            In o (lengthy_line tailwindRegex jsxTagRegex commentRegex i x) ->
            at_line o = i + 1).
  { intros i x o. unfold lengthy_line.
    destruct (_ || _); [intros []|].
    destruct (_ <? _); [intros [<-|[]]; reflexivity|].
    destruct (_ <? _); [intros [<-|[]]; reflexivity|intros []]. }
  split.
  - apply line_by_line_sorted; [exact Hline|].
    intros i x. unfold lengthy_line.
    destruct (_ || _); [cbn; lia|].
    destruct (_ <? _); [cbn; lia|]. destruct (_ <? _); cbn; lia.
  - intros idx. rewrite in_map_iff. split.
    + intros (o & Ho & Hin). apply concat_imap_In in Hin.
      destruct Hin as (i & line & Hi & Hin).
      pose proof (Hline _ _ _ Hin) as E. assert (i = idx) as -> by lia.
      exists line. split; [exact Hi|]. revert Hin. unfold lengthy_line.
      unfold MAX_LENGTH, WARNING_THRESHOLD.
      destruct (_ || _); [intros []|].
      destruct (Nat.ltb_spec 100 (length line)); [split; [reflexivity|lia]|].
      destruct (Nat.ltb_spec 80 (length line)); [split; [reflexivity|lia]|].
      intros [].
    + intros (line & Hi & Hex & Hlen).
      assert (Hsome : exists o,
                In o (lengthy_line tailwindRegex jsxTagRegex commentRegex
                                   idx line)).
      { unfold lengthy_line. rewrite Hex.
        unfold MAX_LENGTH, WARNING_THRESHOLD in *.
        destruct (Nat.ltb_spec 100 (length line)); [eexists; now left|].
        destruct (Nat.ltb_spec 80 (length line)); [eexists; now left|lia]. }
      destruct Hsome as (o & Ho). exists o. split; [eapply Hline, Ho|].
      apply concat_imap_In. eauto.
Qed.

(** X20.  The Long Parameter List check counts the parameters of a matched
    line by the commas of the matched parameter text: it prints one more
    than their number, an empty parameter text counting for one parameter,
    and it reports the line exactly when there are at least 2 commas. *)
Theorem parameters_are_counted_by_commas
    (functionRegex : jsstring -> option (option jsstring * option jsstring))
    (idx : nat) (line : jsstring)
    (groups : option jsstring * option jsstring) :
  functionRegex line = Some groups ->
  let text := or_else (fst groups) (or_else (snd groups) []) in
  length (params_of groups) = S (count_occ N.eq_dec text COMMA)
  /\ (long_parameter_line functionRegex idx line <> []
      <-> 2 <= count_occ N.eq_dec text COMMA).
Proof.
  intros Hm text.
  assert (E : length (params_of groups) = S (count_occ N.eq_dec text COMMA)).
  { unfold params_of. now rewrite length_map, split_length. }
  split; [exact E|]. unfold long_parameter_line. rewrite Hm.
  destruct (Nat.ltb_spec 2 (length (params_of groups))) as [Hlt|Hge].
  - split; [intros _; lia|intros _; discriminate].
  - split; [intros H'; now contradiction H'|intros H'; lia].
Qed.

Lemma parameters_are_counted_by_commas_witness :
  length (params_of (Some (js "a, b, c"), None)) = 3.
Proof.
  apply (parameters_are_counted_by_commas
           (fun _ => Some (Some (js "a, b, c"), None)) 0
           (js "function f(a, b, c) {") (Some (js "a, b, c"), None)).
  reflexivity.
Defined.
End TextualChecks.

Section MatchLines.
Import Duplicate Detector Textual.

Lemma join_snoc_app sep before p q :
  join sep (before ++ [p ++ q]) = join sep (before ++ [p]) ++ q.
Proof.
  induction before as [|b before IH]; [reflexivity|]. cbn [app].
  rewrite !join_cons by (now destruct before). rewrite IH.
  now rewrite <- !app_assoc.
Qed.

Lemma join_prefix sep before l after :
  exists rest, join sep (before ++ l :: after)
               = join sep (before ++ [l]) ++ rest.
Proof.
  induction before as [|b before (rest & IH)]; cbn [app].
  - destruct after as [|a after]; [exists []|exists (sep ++ join sep (a :: after))].
    + now rewrite app_nil_r.
    + reflexivity.
  - exists rest. rewrite !join_cons by (now destruct before).
    rewrite IH. now rewrite <- !app_assoc.
Qed.

(** The line number computed for an index in column [c] of a line. *)
Lemma line_number_in_line before l after c :
  Forall (Forall (fun x => x <> LF)) (before ++ [l]) ->
  line_number (join [LF] (before ++ l :: after))
              (length (join [LF] (before ++ [take c l])))
  = length before + 1.
Proof.
  intros Hfree. unfold line_number.
  destruct (join_prefix [LF] before l after) as (rest & ->).
  assert (E : join [LF] (before ++ [l])
              = join [LF] (before ++ [take c l]) ++ drop c l)
    by (now rewrite <- join_snoc_app, take_drop).
  rewrite E, <- app_assoc, take_app_length, split_join.
  - now rewrite length_app.
  - now destruct before.
  - apply Forall_app in Hfree as [Hb Hl]. apply Forall_app. split; [exact Hb|].
    constructor; [|constructor]. inversion Hl; subst. now apply Forall_take.
Qed.

(** X21.  In the Large Objects check, a match whose group has at least 9
    commas is reported, and a match that starts inside a line is reported
    with the 1-based number of that line; a match whose group has fewer
    commas is not reported. *)
Theorem large_object_is_reported_at_its_line
    (objectRegex : jsstring -> list (nat * jsstring))
    (before : list jsstring) (l : jsstring) (after : list jsstring)
    (c : nat) (objectContent : jsstring) :
  let lines := before ++ l :: after in
  let fullContent := join [LF] lines in
  let index := length (join [LF] (before ++ [take c l])) in
  Forall (Forall (fun x => x <> LF)) (before ++ [l]) ->
  In (index, objectContent) (objectRegex fullContent) ->
  (9 <= count_occ N.eq_dec objectContent COMMA ->
   exists o, In o (large_objects objectRegex lines)
             /\ at_line o = length before + 1)
  /\ (count_occ N.eq_dec objectContent COMMA < 9 ->
      large_object fullContent (index, objectContent) = []).
Proof.
  intros lines fullContent index Hfree Hin.
  pose proof (split_length COMMA objectContent) as Hlen.
  unfold large_object. cbn [fst snd]. split; intros Hc.
  - eexists. split.
    + unfold large_objects. apply in_flat_map.
      exists (index, objectContent). split; [exact Hin|].
      unfold large_object. cbn [fst snd].
      destruct (Nat.leb_spec 10 (length (split COMMA objectContent))); [|lia].
      now left.
    + cbn [at_line]. now apply line_number_in_line.
  - destruct (Nat.leb_spec 10 (length (split COMMA objectContent))); [lia|].
    reflexivity.
Qed.

Lemma large_object_is_reported_at_its_line_witness :
  exists o,
    In o (large_objects
            (fun _ => [(8, js " a: 1, b: 2, c: 3, d: 4, e: 5, f: 6, g: 7, h: 8, i: 9, j: 10 ")])
            [js "// data"; js "const o = { a: 1, b: 2, c: 3, d: 4, e: 5, f: 6, g: 7, h: 8, i: 9, j: 10 };"])
    /\ at_line o = 2.
Proof.
  destruct (large_object_is_reported_at_its_line
              (fun _ => [(8, js " a: 1, b: 2, c: 3, d: 4, e: 5, f: 6, g: 7, h: 8, i: 9, j: 10 ")])
              [js "// data"]
              (js "const o = { a: 1, b: 2, c: 3, d: 4, e: 5, f: 6, g: 7, h: 8, i: 9, j: 10 };")
              [] 0
              (js " a: 1, b: 2, c: 3, d: 4, e: 5, f: 6, g: 7, h: 8, i: 9, j: 10 "))
    as [H _].
  - repeat constructor; discriminate.
  - now left.
  - apply H. vm_compute. lia.
Defined.
End MatchLines.
